(** * Contact manager (exercise_topic_12.py): model and verified properties

    A shallow embedding of the address-book program: Python strings are
    sequences of Unicode code points, exceptions are values of [exn], the
    mutable objects ([Record] instances referenced from the book and from
    local variables) live in an explicit object store, and every method that
    can raise or mutate is a computation in the monad [M]. *)

From Stdlib Require Import ZArith Lia Bool String Ascii.
From stdpp Require Import base list.

Local Open Scope Z_scope.

(** ** Python strings *)

(** A [str] is a sequence of code points. *)
Definition str := list Z.

(** An ASCII literal as a [str]. *)
Definition u (s : string) : str :=
  map (fun a => Z.of_N (N_of_ascii a)) (list_ascii_of_string s).

Definition in_ranges (table : list (Z * Z)) (c : Z) : bool :=
  existsb (fun r => (fst r <=? c) && (c <=? snd r)) table.

(** Code points with Numeric_Type Decimal (category Nd), in runs of ten
    starting at the digit zero: what [\d] matches in a [str] pattern and what
    [int] converts (Unicode 14, the table of CPython 3.11). *)
Definition DECIMAL_RANGES : list (Z * Z) :=
  [(48, 57); (1632, 1641); (1776, 1785); (1984, 1993); (2406, 2415);
   (2534, 2543); (2662, 2671); (2790, 2799); (2918, 2927); (3046, 3055);
   (3174, 3183); (3302, 3311); (3430, 3439); (3558, 3567); (3664, 3673);
   (3792, 3801); (3872, 3881); (4160, 4169); (4240, 4249); (6112, 6121);
   (6160, 6169); (6470, 6479); (6608, 6617); (6784, 6793); (6800, 6809);
   (6992, 7001); (7088, 7097); (7232, 7241); (7248, 7257); (42528, 42537);
   (43216, 43225); (43264, 43273); (43472, 43481); (43504, 43513);
   (43600, 43609); (44016, 44025); (65296, 65305); (66720, 66729);
   (68912, 68921); (69734, 69743); (69872, 69881); (69942, 69951);
   (70096, 70105); (70384, 70393); (70736, 70745); (70864, 70873);
   (71248, 71257); (71360, 71369); (71472, 71481); (71904, 71913);
   (72016, 72025); (72784, 72793); (73040, 73049); (73120, 73129);
   (92768, 92777); (92864, 92873); (93008, 93017); (120782, 120831);
   (123200, 123209); (123632, 123641); (125264, 125273); (130032, 130041)].

(** Code points with Numeric_Type Decimal or Digit: the characters for which
    [str.isdigit] holds (superscripts, circled digits and the like on top of
    the decimal digits). *)
Definition DIGIT_RANGES : list (Z * Z) :=
  [(48, 57); (178, 179); (185, 185); (1632, 1641); (1776, 1785);
   (1984, 1993); (2406, 2415); (2534, 2543); (2662, 2671); (2790, 2799);
   (2918, 2927); (3046, 3055); (3174, 3183); (3302, 3311); (3430, 3439);
   (3558, 3567); (3664, 3673); (3792, 3801); (3872, 3881); (4160, 4169);
   (4240, 4249); (4969, 4977); (6112, 6121); (6160, 6169); (6470, 6479);
   (6608, 6618); (6784, 6793); (6800, 6809); (6992, 7001); (7088, 7097);
   (7232, 7241); (7248, 7257); (8304, 8304); (8308, 8313); (8320, 8329);
   (9312, 9320); (9332, 9340); (9352, 9360); (9450, 9450); (9461, 9469);
   (9471, 9471); (10102, 10110); (10112, 10120); (10122, 10130);
   (42528, 42537); (43216, 43225); (43264, 43273); (43472, 43481);
   (43504, 43513); (43600, 43609); (44016, 44025); (65296, 65305);
   (66720, 66729); (68160, 68163); (68912, 68921); (69216, 69224);
   (69714, 69722); (69734, 69743); (69872, 69881); (69942, 69951);
   (70096, 70105); (70384, 70393); (70736, 70745); (70864, 70873);
   (71248, 71257); (71360, 71369); (71472, 71481); (71904, 71913);
   (72016, 72025); (72784, 72793); (73040, 73049); (73120, 73129);
   (92768, 92777); (92864, 92873); (93008, 93017); (120782, 120831);
   (123200, 123209); (123632, 123641); (125264, 125273); (127232, 127242);
   (130032, 130041)].

(** Code points for which [str.isspace] holds: the separators of
    [str.split()] and the characters removed by [str.strip()]. *)
Definition SPACE_RANGES : list (Z * Z) :=
  [(9, 13); (28, 32); (133, 133); (160, 160); (5760, 5760); (8192, 8202);
   (8232, 8233); (8239, 8239); (8287, 8287); (12288, 12288)].

Module Str.

Definition is_digit_char (c : Z) : bool := in_ranges DIGIT_RANGES c.
Definition is_decimal_char (c : Z) : bool := in_ranges DECIMAL_RANGES c.
Definition is_space_char (c : Z) : bool := in_ranges SPACE_RANGES c.

(** [len(s)] *)
Definition len (s : str) : Z := Z.of_nat (length s).

(** [s.isdigit()]: every character is a digit and there is at least one. *)
Definition isdigit (s : str) : bool :=
  match s with
  | [] => false
  | _ => forallb is_digit_char s
  end.

(** [sep.join(parts)] *)
Fixpoint join (sep : str) (parts : list str) : str :=
  match parts with
  | [] => []
  | [p] => p
  | p :: ps => p ++ sep ++ join sep ps
  end.

(** [s.strip()] *)
Fixpoint lstrip (s : str) : str :=
  match s with
  | c :: s' => if is_space_char c then lstrip s' else s
  | [] => []
  end.

Definition strip (s : str) : str := rev (lstrip (rev (lstrip s))).

(** [s.split()]: the maximal runs of characters that are not white space.
    [cur] is the run being read, in reverse. *)
Fixpoint split_aux (cur : str) (s : str) : list str :=
  match s with
  | [] => match cur with [] => [] | _ => [rev cur] end
  | c :: s' =>
      if is_space_char c
      then match cur with
           | [] => split_aux [] s'
           | _ => rev cur :: split_aux [] s'
           end
      else split_aux (c :: cur) s'
  end.

Definition split (s : str) : list str := split_aux [] s.

(** The decimal rendering of a natural number, as [%d] and [str(int)]
    produce it. *)
Fixpoint of_uint (d : Decimal.uint) : str :=
  match d with
  | Decimal.Nil => []
  | Decimal.D0 d => 48 :: of_uint d
  | Decimal.D1 d => 49 :: of_uint d
  | Decimal.D2 d => 50 :: of_uint d
  | Decimal.D3 d => 51 :: of_uint d
  | Decimal.D4 d => 52 :: of_uint d
  | Decimal.D5 d => 53 :: of_uint d
  | Decimal.D6 d => 54 :: of_uint d
  | Decimal.D7 d => 55 :: of_uint d
  | Decimal.D8 d => 56 :: of_uint d
  | Decimal.D9 d => 57 :: of_uint d
  end.

Definition of_nat (n : nat) : str := of_uint (Nat.to_uint n).

(** The value of a decimal digit character: its offset in its run of ten. *)
Definition decimal_value (c : Z) : Z :=
  match find (fun r => (fst r <=? c) && (c <=? snd r)) DECIMAL_RANGES with
  | Some r => (c - fst r) mod 10
  | None => 0
  end.

(** [int(s)] on the strings the date parser hands it: white space around
    the digits is dropped, then the decimal digits are read; anything else
    (no digit at all, a character that is not a decimal digit) is a
    ValueError, here [None]. Signs and underscores, which [int] also
    accepts, never occur in those strings and are not modelled. *)
Definition int (s : str) : option Z :=
  let t := strip s in
  match t with
  | [] => None
  | _ => if forallb is_decimal_char t
         then Some (fold_left (fun acc c => 10 * acc + decimal_value c) t 0)
         else None
  end.

End Str.

(** ** Exceptions and the computation monad *)

Inductive exn : Type :=
| IndexError
| ValueError (msg : str)
| KeyError
| AttributeError
| TypeError
| EOFError.

Inductive outcome (A : Type) : Type :=
| Ok (a : A)
| Raise (e : exn).
Arguments Ok {A} a.
Arguments Raise {A} e.

(** ** The [datetime.date] class *)

Module datetime.

Definition MINYEAR : Z := 1.
Definition MAXYEAR : Z := 9999.

Definition _is_leap (year : Z) : bool :=
  (year mod 4 =? 0) && (negb (year mod 100 =? 0) || (year mod 400 =? 0)).

Definition _DAYS_IN_MONTH (month : Z) : Z :=
  match month with
  | 1 => 31 | 2 => 28 | 3 => 31 | 4 => 30 | 5 => 31 | 6 => 30
  | 7 => 31 | 8 => 31 | 9 => 30 | 10 => 31 | 11 => 30 | 12 => 31
  | _ => -1
  end.

Definition _DAYS_BEFORE_MONTH (month : Z) : Z :=
  match month with
  | 1 => 0 | 2 => 31 | 3 => 59 | 4 => 90 | 5 => 120 | 6 => 151
  | 7 => 181 | 8 => 212 | 9 => 243 | 10 => 273 | 11 => 304 | 12 => 334
  | _ => -1
  end.

Definition _days_before_year (year : Z) : Z :=
  let y := year - 1 in
  y * 365 + y / 4 - y / 100 + y / 400.

Definition _days_in_month (year month : Z) : Z :=
  if (month =? 2) && _is_leap year then 29 else _DAYS_IN_MONTH month.

Definition _days_before_month (year month : Z) : Z :=
  _DAYS_BEFORE_MONTH month + (if (2 <? month) && _is_leap year then 1 else 0).

Definition _ymd2ord (year month day : Z) : Z :=
  _days_before_year year + _days_before_month year month + day.

Record date : Type := mkdate { year : Z; month : Z; day : Z }.

(** [date(year, month, day)]: the constructor checks its fields, the year
    first. *)
Definition date_new (y m d : Z) : outcome date :=
  if negb ((MINYEAR <=? y) && (y <=? MAXYEAR))
  then Raise (ValueError (u "year " ++ (if y <? 0 then u "-" else [])
                            ++ Str.of_nat (Z.abs_nat y) ++ u " is out of range"))
  else if negb ((1 <=? m) && (m <=? 12))
  then Raise (ValueError (u "month must be in 1..12"))
  else if negb ((1 <=? d) && (d <=? _days_in_month y m))
  then Raise (ValueError (u "day is out of range for month"))
  else Ok (mkdate y m d).

(** The dates that exist as objects. *)
Definition valid (dt : date) : Prop :=
  MINYEAR <= year dt <= MAXYEAR /\ 1 <= month dt <= 12 /\
  1 <= day dt <= _days_in_month (year dt) (month dt).

(** [dt.replace(year=y)] *)
Definition replace_year (dt : date) (y : Z) : outcome date :=
  date_new y (month dt) (day dt).

(** [a < b]: dates compare as (year, month, day) triples. *)
Definition lt (a b : date) : bool :=
  (year a <? year b)
  || ((year a =? year b)
      && ((month a <? month b)
          || ((month a =? month b) && (day a <? day b)))).

Definition le (a b : date) : bool := negb (lt b a).

Definition toordinal (dt : date) : Z := _ymd2ord (year dt) (month dt) (day dt).

(** [(a - b).days] *)
Definition sub_days (a b : date) : Z := toordinal a - toordinal b.

(** A decimal number padded with zeros on the left to [width] characters. *)
Definition zfill (width : nat) (s : str) : str :=
  replicate (width - length s)%nat 48 ++ s.

(** [dt.strftime("%d.%m.%Y")]: day and month on two digits; the year as the
    C library prints [%Y], a decimal number without padding, so a year below
    1000 has fewer than four digits. *)
Definition strftime_dmY (dt : date) : str :=
  zfill 2 (Str.of_nat (Z.to_nat (day dt))) ++ u "."
    ++ zfill 2 (Str.of_nat (Z.to_nat (month dt))) ++ u "."
    ++ Str.of_nat (Z.to_nat (year dt)).

(** *** [datetime.strptime(s, "%d.%m.%Y")]

    The format is compiled to the regular expression
    [(?P<d>3[0-1]|[1-2]\d|0[1-9]|[1-9]| [1-9])\.(?P<m>1[0-2]|0[1-9]|[1-9])\.(?P<Y>\d\d\d\d)]
    which is matched at the start of the input, alternatives tried in
    order with backtracking. (The expression is compiled with IGNORECASE,
    which changes nothing for digits, the space and the dot.) *)

Inductive atom : Type :=
| Lit (c : Z)             (* one given character *)
| Range (lo hi : Z)       (* [lo-hi] *)
| Dec.                    (* \d *)

Definition atom_match (a : atom) (c : Z) : bool :=
  match a with
  | Lit x => c =? x
  | Range lo hi => (lo <=? c) && (c <=? hi)
  | Dec => Str.is_decimal_char c
  end.

(** A sequence of atoms against a prefix of the input: the matched text and
    the rest. *)
Fixpoint match_seq (p : list atom) (s : str) : option (str * str) :=
  match p with
  | [] => Some ([], s)
  | a :: p' =>
      match s with
      | c :: s' =>
          if atom_match a c
          then match match_seq p' s' with
               | Some (m, rest) => Some (c :: m, rest)
               | None => None
               end
          else None
      | [] => None
      end
  end.

(** A group of alternatives followed by the continuation [k] of the
    pattern: the first alternative after which the whole pattern matches. *)
Fixpoint match_group {R : Type} (alts : list (list atom)) (s : str)
    (k : str -> str -> option R) : option R :=
  match alts with
  | [] => None
  | p :: alts' =>
      match match_seq p s with
      | Some (m, rest) =>
          match k m rest with
          | Some r => Some r
          | None => match_group alts' s k
          end
      | None => match_group alts' s k
      end
  end.

Definition RE_d : list (list atom) :=
  [ [Lit 51; Range 48 49]; [Range 49 50; Dec]; [Lit 48; Range 49 57];
    [Range 49 57]; [Lit 32; Range 49 57] ].

Definition RE_m : list (list atom) :=
  [ [Lit 49; Range 48 50]; [Lit 48; Range 49 57]; [Range 49 57] ].

Definition RE_Y : list (list atom) := [ [Dec; Dec; Dec; Dec] ].

Definition RE_dot : list (list atom) := [ [Lit 46] ].

(** [format_regex.match(data_string)]: the three groups and what is left of
    the input after the match. *)
Definition regex_match_dmY (s : str) : option (str * str * str * str) :=
  match_group RE_d s (fun d r1 =>
  match_group RE_dot r1 (fun _ r2 =>
  match_group RE_m r2 (fun m r3 =>
  match_group RE_dot r3 (fun _ r4 =>
  match_group RE_Y r4 (fun Y r5 => Some (d, m, Y, r5)))))).

(** The parser proper. Every failure is a ValueError, whose text the one
    caller discards, so the result is an option: no match, unconverted data
    after the match, or field values that do not make a date. *)
Definition strptime_dmY (s : str) : option date :=
  match regex_match_dmY s with
  | None => None
  | Some (d, m, Y, rest) =>
      match rest with
      | _ :: _ => None
      | [] =>
          match Str.int Y, Str.int m, Str.int d with
          | Some yv, Some mv, Some dv =>
              match date_new yv mv dv with
              | Ok dt => Some dt
              | Raise _ => None
              end
          | _, _, _ => None
          end
      end
  end.

End datetime.


(** ** Fields *)

Module Phone.

(** [Phone._validate(value)] *)
Definition _validate (value : str) : bool :=
  Str.isdigit value && (Str.len value =? 10).

Definition INVALID : str := u "Phone number must contain exactly 10 digits.".

(** [Phone(value)]: the validated value, or ValueError. *)
Definition __init__ (value : str) : outcome str :=
  if negb (_validate value) then Raise (ValueError INVALID) else Ok value.

End Phone.

Module Birthday.

Definition INVALID : str := u "Invalid date format. Use DD.MM.YYYY".

(** [Birthday(value)]: the parsed date; any ValueError of the parser is
    replaced by the class's own. *)
Definition __init__ (value : str) : outcome datetime.date :=
  match datetime.strptime_dmY value with
  | Some d => Ok d
  | None => Raise (ValueError INVALID)
  end.

End Birthday.

(** ** The object store *)

(** The attributes of a [Record] object: the value of its [Name], the values
    of its [Phone]s in list order, and the date of its [Birthday] if any. *)
Record record : Type := mkRecord {
  name : str;
  phones : list str;
  birthday : option datetime.date
}.

#[global] Instance record_inhabited : Inhabited record :=
  populate (mkRecord [] [] None).

(** A reference to a [Record] object. *)
Abbreviation loc := nat (only parsing).

(** The objects allocated so far, and the [data] dictionary of the address
    book: names to references, in insertion order. *)
Record state : Type := mkState {
  heap : list record;
  data : list (str * loc)
}.

Definition M (A : Type) : Type := state -> outcome A * state.

Definition ret {A} (a : A) : M A := fun st => (Ok a, st).

Definition raise {A} (e : exn) : M A := fun st => (Raise e, st).

Definition bind {A B} (c : M A) (k : A -> M B) : M B :=
  fun st =>
    match c st with
    | (Ok a, st') => k a st'
    | (Raise e, st') => (Raise e, st')
    end.

Notation "'do' x <- c ;; k" := (bind c (fun x => k))
  (at level 10, x name, c at level 99, k at level 200).

(** A pure computation that may raise. *)
Definition lift {A} (o : outcome A) : M A := fun st => (o, st).

(** Allocation of a new object. *)
Definition alloc (r : record) : M loc :=
  fun st => (Ok (length (heap st)), mkState (heap st ++ [r]) (data st)).

(** Reading the attributes of an object. References come from [alloc] and
    are never dangling; outside the store the read yields the empty record. *)
Definition deref (l : loc) : M record :=
  fun st => (Ok (heap st !!! l), st).

(** In-place update of an object. *)
Definition update (l : loc) (f : record -> record) : M unit :=
  fun st => (Ok tt, mkState (alter f l (heap st)) (data st)).

Definition get_data : M (list (str * loc)) := fun st => (Ok (data st), st).

Definition set_data (d : list (str * loc)) : M unit :=
  fun st => (Ok tt, mkState (heap st) d).

(** ** Dictionaries in insertion order *)

Module dict.

(** [d.get(k)] *)
Fixpoint get {V} (k : str) (d : list (str * V)) : option V :=
  match d with
  | [] => None
  | (k', v) :: d' => if decide (k' = k) then Some v else get k d'
  end.

(** [d[k] = v]: an existing key keeps its place, a new one goes last. *)
Fixpoint set {V} (k : str) (v : V) (d : list (str * V)) : list (str * V) :=
  match d with
  | [] => [(k, v)]
  | (k', v') :: d' =>
      if decide (k' = k) then (k', v) :: d' else (k', v') :: set k v d'
  end.

(** [del d[k]] for a key that is present. *)
Fixpoint del {V} (k : str) (d : list (str * V)) : list (str * V) :=
  match d with
  | [] => []
  | (k', v') :: d' => if decide (k' = k) then d' else (k', v') :: del k d'
  end.

(** [k in d] *)
Definition contains {V} (k : str) (d : list (str * V)) : bool :=
  match get k d with Some _ => true | None => false end.

Definition keys {V} (d : list (str * V)) : list str := map fst d.
Definition values {V} (d : list (str * V)) : list V := map snd d.

End dict.

(** ** class Record *)

Module Rec.

(** [Record(name)] *)
Definition __init__ (name : str) : M loc := alloc (mkRecord name [] None).

Definition add_phone (self : loc) (phone : str) : M unit :=
  do p <- lift (Phone.__init__ phone) ;;
  update self (fun r => mkRecord (name r) (phones r ++ [p]) (birthday r)).

(** The loop of [edit_phone] over [enumerate(self.phones)], at index [i] with
    [ps] still to visit. *)
Fixpoint edit_phone_loop (self : loc) (old_phone new_phone : str)
    (i : nat) (ps : list str) : M unit :=
  match ps with
  | [] => raise (ValueError (u "Phone " ++ old_phone ++ u " not found."))
  | p :: ps' =>
      if decide (p = old_phone)
      then
        do q <- lift (Phone.__init__ new_phone) ;;
        update self (fun r => mkRecord (name r) (<[i := q]> (phones r)) (birthday r))
      else edit_phone_loop self old_phone new_phone (S i) ps'
  end.

Definition edit_phone (self : loc) (old_phone new_phone : str) : M unit :=
  do r <- deref self ;;
  edit_phone_loop self old_phone new_phone 0%nat (phones r).

Definition remove_phone (self : loc) (phone : str) : M unit :=
  update self (fun r =>
    mkRecord (name r) (filter (fun p => p <> phone) (phones r)) (birthday r)).

Definition add_birthday (self : loc) (bday : str) : M unit :=
  do b <- lift (Birthday.__init__ bday) ;;
  update self (fun r => mkRecord (name r) (phones r) (Some b)).

(** The next occurrence of a birthday, as both [days_to_birthday] and
    [get_upcoming_birthdays] compute it: this year's, or next year's when
    this year's is before [today]. *)
Definition next_birthday (today b : datetime.date) : outcome datetime.date :=
  match datetime.replace_year b (datetime.year today) with
  | Raise e => Raise e
  | Ok nb =>
      if datetime.lt nb today
      then datetime.replace_year nb (datetime.year today + 1)
      else Ok nb
  end.

(** [days_to_birthday()], with the date the clock gives as [today]. *)
Definition days_to_birthday (today : datetime.date) (self : loc) : M (option Z) :=
  do r <- deref self ;;
  match birthday r with
  | None => ret None
  | Some b =>
      do nb <- lift (next_birthday today b) ;;
      ret (Some (datetime.sub_days nb today))
  end.

(** [str(record)] *)
Definition __str__ (self : loc) : M str :=
  do r <- deref self ;;
  let ps := Str.join (u ", ") (phones r) in
  let bday :=
    match birthday r with
    | Some b => datetime.strftime_dmY b
    | None => u "N/A"
    end in
  ret (name r ++ u ": phones: [" ++ ps ++ u "], birthday: " ++ bday).

End Rec.

(** ** class AddressBook *)

Module AddressBook.

Definition add_record (rec : loc) : M unit :=
  do r <- deref rec ;;
  do d <- get_data ;;
  set_data (dict.set (name r) rec d).

Definition find (name : str) : M (option loc) :=
  do d <- get_data ;;
  ret (dict.get name d).

Definition delete (name : str) : M unit :=
  do d <- get_data ;;
  if dict.contains name d then set_data (dict.del name d) else ret tt.

(** The loop of [get_upcoming_birthdays] over [self.data.values()]. *)
Fixpoint upcoming_loop (today : datetime.date) (recs : list loc)
    (upcoming : list (str * str)) : M (list (str * str)) :=
  match recs with
  | [] => ret upcoming
  | rec :: recs' =>
      do r <- deref rec ;;
      match birthday r with
      | None => upcoming_loop today recs' upcoming
      | Some b =>
          do nb <- lift (Rec.next_birthday today b) ;;
          let days := datetime.sub_days nb today in
          if (0 <=? days) && (days <=? 7)
          then upcoming_loop today recs'
                 (upcoming ++ [(name r, datetime.strftime_dmY nb)])
          else upcoming_loop today recs' upcoming
      end
  end.

Definition get_upcoming_birthdays (today : datetime.date) : M (list (str * str)) :=
  do d <- get_data ;;
  upcoming_loop today (dict.values d) [].

End AddressBook.


(** ** Command handlers *)

Definition NOT_ENOUGH_ARGUMENTS : str :=
  u "Error: Not enough arguments. Please check your command format.".
Definition CONTACT_NOT_FOUND : str := u "Error: Contact not found.".
Definition CONTACT_NOT_FOUND_ADD : str :=
  u "Error: Contact not found. Please add it first.".
Definition INCORRECT_FORMAT : str :=
  u "Error: Incorrect command format. Try again.".

(** The decorator: the five listed exception types become messages, any
    other exception passes through. *)
Definition input_error (func : M str) : M str :=
  fun st =>
    match func st with
    | (Ok s, st') => (Ok s, st')
    | (Raise IndexError, st') => (Ok NOT_ENOUGH_ARGUMENTS, st')
    | (Raise (ValueError e), st') => (Ok (u "Error: " ++ e), st')
    | (Raise KeyError, st') => (Ok CONTACT_NOT_FOUND, st')
    | (Raise AttributeError, st') => (Ok CONTACT_NOT_FOUND_ADD, st')
    | (Raise TypeError, st') => (Ok INCORRECT_FORMAT, st')
    | (Raise e, st') => (Raise e, st')
    end.

(** The ValueError of a sequence unpacking with too few values:
    [a, b, *_ = args] ([at_least]) or [a, b = args]. *)
Definition not_enough_values (at_least : bool) (expected got : nat) : exn :=
  ValueError (u "not enough values to unpack (expected "
                ++ (if at_least then u "at least " else [])
                ++ Str.of_nat expected ++ u ", got " ++ Str.of_nat got ++ u ")").

Definition too_many_values (expected : nat) : exn :=
  ValueError (u "too many values to unpack (expected " ++ Str.of_nat expected ++ u ")").

Definition add_contact (args : list str) : M str :=
  input_error
    match args with
    | name :: phone :: _ =>
        do found <- AddressBook.find name ;;
        do p <- match found with
             | None =>
                 do record <- Rec.__init__ name ;;
                 do _ <- AddressBook.add_record record ;;
                 ret (record, u "Contact added.")
             | Some record => ret (record, u "Contact updated.")
             end ;;
        do _ <- match phone with
             | [] => ret tt
             | _ => Rec.add_phone (fst p) phone
             end ;;
        ret (snd p)
    | _ => raise (not_enough_values true 2 (length args))
    end.

Definition change_contact (args : list str) : M str :=
  input_error
    match args with
    | name :: old_phone :: new_phone :: _ =>
        do found <- AddressBook.find name ;;
        do _ <- match found with
             | None => raise AttributeError
             | Some record => Rec.edit_phone record old_phone new_phone
             end ;;
        ret (u "Phone updated.")
    | _ => raise (not_enough_values true 3 (length args))
    end.

Definition show_phone (args : list str) : M str :=
  input_error
    match args with
    | [] => raise IndexError
    | name :: _ =>
        do found <- AddressBook.find name ;;
        match found with
        | None => raise AttributeError
        | Some record =>
            do r <- deref record ;;
            ret (Str.join (u ", ") (phones r))
        end
    end.

(** [str(rec) for rec in ...] *)
Fixpoint str_all (recs : list loc) : M (list str) :=
  match recs with
  | [] => ret []
  | rec :: recs' =>
      do s <- Rec.__str__ rec ;;
      do ss <- str_all recs' ;;
      ret (s :: ss)
  end.

Definition show_all : M str :=
  input_error
    (do d <- get_data ;;
     match d with
     | [] => ret (u "No contacts found.")
     | _ =>
         do ss <- str_all (dict.values d) ;;
         ret (Str.join [10] ss)
     end).

Definition add_birthday (args : list str) : M str :=
  input_error
    match args with
    | [name; bday] =>
        do found <- AddressBook.find name ;;
        do record <- match found with
                  | None =>
                      do record <- Rec.__init__ name ;;
                      do _ <- AddressBook.add_record record ;;
                      ret record
                  | Some record => ret record
                  end ;;
        do _ <- Rec.add_birthday record bday ;;
        ret (u "Birthday added for " ++ name)
    | _ :: _ :: _ :: _ => raise (too_many_values 2)
    | _ => raise (not_enough_values false 2 (length args))
    end.

Definition show_birthday (args : list str) : M str :=
  input_error
    match args with
    | [] => raise IndexError
    | name :: _ =>
        do found <- AddressBook.find name ;;
        match found with
        | None => raise AttributeError
        | Some record =>
            do r <- deref record ;;
            match birthday r with
            | None => raise AttributeError
            | Some b => ret (datetime.strftime_dmY b)
            end
        end
    end.

Definition birthdays (today : datetime.date) (args : list str) : M str :=
  input_error
    (do upcoming <- AddressBook.get_upcoming_birthdays today ;;
     match upcoming with
     | [] => ret (u "No birthdays in the next week.")
     | _ => ret (Str.join [10] (map (fun nb => fst nb ++ u ": " ++ snd nb) upcoming))
     end).

(** ** The command loop *)

Section Loop.

(** [str.lower], the Unicode case mapping of the runtime. *)
Variable lower : str -> str.

Definition parse_input (user_input : str) : str * list str :=
  match Str.split (Str.strip user_input) with
  | [] => ([], [])
  | cmd :: args => (lower cmd, args)
  end.

(** One turn of the loop of [main] on an input line read on the day [today]:
    the line printed, and whether the loop goes on. *)
Definition step (today : datetime.date) (user_input : str) : M (str * bool) :=
  let (command, args) := parse_input user_input in
  if decide (command = u "close" \/ command = u "exit")
  then ret (u "Good bye!", false)
  else if decide (command = u "hello") then ret (u "How can I help you?", true)
  else if decide (command = u "add")
  then (do s <- add_contact args ;; ret (s, true))
  else if decide (command = u "change")
  then (do s <- change_contact args ;; ret (s, true))
  else if decide (command = u "phone")
  then (do s <- show_phone args ;; ret (s, true))
  else if decide (command = u "all") then (do s <- show_all ;; ret (s, true))
  else if decide (command = u "add-birthday")
  then (do s <- add_birthday args ;; ret (s, true))
  else if decide (command = u "show-birthday")
  then (do s <- show_birthday args ;; ret (s, true))
  else if decide (command = u "birthdays")
  then (do s <- birthdays today args ;; ret (s, true))
  else ret (u "Invalid command. Try again.", true).

(** The loop of [main] over the lines the input still holds, each with the
    date on which it is read: the lines printed, and how the loop ends.
    [input] raises EOFError when nothing is left. *)
Fixpoint main_loop (inputs : list (datetime.date * str)) (st : state)
    : list str * (outcome unit * state) :=
  match inputs with
  | [] => ([], (Raise EOFError, st))
  | (today, user_input) :: inputs' =>
      match step today user_input st with
      | (Ok (out, true), st') =>
          let (outs, r) := main_loop inputs' st' in (out :: outs, r)
      | (Ok (out, false), st') => ([out], (Ok tt, st'))
      | (Raise e, st') => ([], (Raise e, st'))
      end
  end.

(** [main] from the book that [load_data] returned. *)
Definition main (inputs : list (datetime.date * str)) (book : state)
    : list str * (outcome unit * state) :=
  let (outs, r) := main_loop inputs book in
  (u "Welcome to the assistant bot!" :: outs, r).

End Loop.

(** The book with no contact and no object allocated. *)
Definition empty_state : state := mkState [] [].

(** ** Notions used to state the properties *)

(** A string of exactly ten ASCII digits. *)
Definition ten_ascii_digits (s : str) : Prop :=
  length s = 10%nat /\ Forall (fun c => 48 <= c <= 57) s.

(** Ten Arabic-Indic digits, U+0661 to U+0669 and U+0660. *)
Definition arabic_indic_phone : str :=
  [1633; 1634; 1635; 1636; 1637; 1638; 1639; 1640; 1641; 1632].

(** A birthday on 29 February. *)
Definition feb29 (b : datetime.date) : Prop :=
  datetime.month b = 2 /\ datetime.day b = 29.

(** The book after the command [add-birthday alice 29.02.2000] on an empty
    one. *)
Definition book_feb29 : state :=
  mkState [mkRecord (u "alice") [] (Some (datetime.mkdate 2000 2 29))]
          [(u "alice", 0%nat)].

(** A store with one contact born on 1 January 2000. *)
Definition book_jan1 : state :=
  mkState [mkRecord (u "bob") [] (Some (datetime.mkdate 2000 1 1))]
          [(u "bob", 0%nat)].

(** The entry of one record in the list of upcoming birthdays, following the
    specification: a record with a birthday whose day count [d] satisfies
    [0 <= d <= 7] gives its name and the date of the next occurrence, any
    other record gives nothing. *)
Definition upcoming_entry (today : datetime.date) (r : record) : list (str * str) :=
  match birthday r with
  | None => []
  | Some b =>
      match Rec.next_birthday today b with
      | Ok nb =>
          let d := datetime.sub_days nb today in
          if decide (0 <= d <= 7) then [(name r, datetime.strftime_dmY nb)] else []
      | Raise _ => []
      end
  end.

(** The specified result of [upcomingBirthdays]: the entries of the stored
    records, in the order of the book. *)
Definition upcoming_spec (today : datetime.date) (st : state) : list (str * str) :=
  flat_map (fun l => upcoming_entry today (heap st !!! l)) (dict.values (data st)).

(** The records for which the next birthday can be computed. *)
Definition next_birthday_defined (today : datetime.date) (r : record) : Prop :=
  forall b, birthday r = Some b -> exists nb, Rec.next_birthday today b = Ok nb.

(** A book with two contacts, born on 13 June and on 18 June 1990. *)
Definition book_june : state :=
  mkState [mkRecord (u "ann") [] (Some (datetime.mkdate 1990 6 13));
           mkRecord (u "ben") [] (Some (datetime.mkdate 1990 6 18))]
          [(u "ann", 0%nat); (u "ben", 1%nat)].

(** The number of entries a dictionary holds under the key [k]. *)
Definition entries_under {V} (k : str) (d : list (str * V)) : nat :=
  length (filter (fun e => fst e = k) d).

(** The states reached from the empty book by [add_record] and [delete],
    with records allocated and updated in between. *)
Inductive reachable : state -> Prop :=
| reach_empty : reachable empty_state
| reach_add_record (st : state) (l : loc) :
    reachable st -> reachable (snd (AddressBook.add_record l st))
| reach_delete (st : state) (k : str) :
    reachable st -> reachable (snd (AddressBook.delete k st))
| reach_alloc (st : state) (r : record) :
    reachable st -> reachable (snd (alloc r st))
| reach_update (st : state) (l : loc) (f : record -> record) :
    reachable st -> reachable (snd (update l f st)).

(** The two failures of [edit_phone], both ValueErrors, told apart by their
    message. *)
Definition PhoneNotFound (old_phone : str) : exn :=
  ValueError (u "Phone " ++ old_phone ++ u " not found.").

Definition InvalidPhone : exn := ValueError Phone.INVALID.

(** A store with one contact whose only phone is "1111111111". *)
Definition book_ones : state :=
  mkState [mkRecord (u "carl") [u "1111111111"] None] [(u "carl", 0%nat)].

(** The exceptions that [input_error] turns into a message. *)
Definition caught (e : exn) : bool :=
  match e with
  | IndexError | ValueError _ | KeyError | AttributeError | TypeError => true
  | EOFError => false
  end.

(** A computation that raises, if at all, an exception [input_error]
    catches. *)
Definition raises_caught {A} (c : M A) : Prop :=
  forall st e st', c st = (Raise e, st') -> caught e = true.

Definition is_ascii_digit (c : Z) : Prop := 48 <= c <= 57.

(** [DDMMYYYY s dt]: the string [s] is two digits, a dot, two digits, a dot
    and four digits, and [dt] is the (day, month, year) it denotes. *)
Inductive DDMMYYYY : str -> datetime.date -> Prop :=
| DDMMYYYY_intro (d1 d2 m1 m2 y1 y2 y3 y4 : Z) :
    Forall is_ascii_digit [d1; d2; m1; m2; y1; y2; y3; y4] ->
    DDMMYYYY [d1; d2; 46; m1; m2; 46; y1; y2; y3; y4]
      (datetime.mkdate
         (1000 * (y1 - 48) + 100 * (y2 - 48) + 10 * (y3 - 48) + (y4 - 48))
         (10 * (m1 - 48) + (m2 - 48))
         (10 * (d1 - 48) + (d2 - 48))).

(** The digits of a number below 100, and of one below 10000. *)
Definition two_digits (n : Z) : str := [48 + n / 10; 48 + n mod 10].

Definition four_digits (n : Z) : str :=
  [48 + n / 1000; 48 + (n / 100) mod 10; 48 + (n / 10) mod 10; 48 + n mod 10].

Fixpoint str_eqb (s t : str) : bool :=
  match s, t with
  | [], [] => true
  | c :: s', c' :: t' => (c =? c') && str_eqb s' t'
  | _, _ => false
  end.

(** A word of a command line: not empty and without white space. *)
Definition is_token (t : str) : Prop :=
  t <> [] /\ Forall (fun c => Str.is_space_char c = false) t.

(** A computation that leaves the store and the book as they are, whatever
    it returns or raises. *)
Definition read_only {A} (c : M A) : Prop :=
  forall st o st', c st = (o, st') -> st' = st.

(** A record whose phones all pass validation and whose birthday, if set, is
    a date of the calendar. *)
Definition record_ok (r : record) : Prop :=
  Forall (fun p => Phone._validate p = true) (phones r) /\
  (forall b, birthday r = Some b -> datetime.valid b).

(** A well-formed book: at most one entry per name, every entry refers to an
    allocated record that carries the entry's name, and every record is
    well-formed. *)
Definition book_ok (st : state) : Prop :=
  (forall k, (entries_under k (data st) <= 1)%nat) /\
  (forall k l, dict.get k (data st) = Some l ->
               exists r, heap st !! l = Some r /\ name r = k) /\
  Forall record_ok (heap st).

(** The lines that end the loop: their command is [close] or [exit]. *)
Definition quits (lower : str -> str) (user_input : str) : bool :=
  bool_decide (fst (parse_input lower user_input) = u "close" \/
               fst (parse_input lower user_input) = u "exit").

(** The phones a name has in the book, none when the name is not there. *)
Definition phones_of (st : state) (name : str) : list str :=
  match dict.get name (data st) with
  | Some l => phones (heap st !!! l)
  | None => []
  end.

(** The record a name has in the book, if any. *)
Definition contact_of (st : state) (n : str) : option record :=
  match dict.get n (data st) with
  | Some l => heap st !! l
  | None => None
  end.

(** * Properties *)

(** ** Strings *)

Lemma ascii_digit_is_digit (c : Z) : 48 <= c <= 57 -> Str.is_digit_char c = true.
Proof.
  intros Hc. unfold Str.is_digit_char, in_ranges.
  apply existsb_exists. exists (48, 57). split.
  - left. reflexivity.
  - simpl. lia.
Qed.

Lemma ascii_digit_is_decimal (c : Z) : 48 <= c <= 57 -> Str.is_decimal_char c = true.
Proof.
  intros Hc. unfold Str.is_decimal_char, in_ranges.
  apply existsb_exists. exists (48, 57). split.
  - left. reflexivity.
  - simpl. lia.
Qed.

Lemma forallb_Forall_true {A} (f : A -> bool) (l : list A) :
  forallb f l = true <-> Forall (fun x => f x = true) l.
Proof.
  induction l as [|x l IH]; simpl.
  - split; [constructor | reflexivity].
  - rewrite andb_true_iff, IH. split.
    + intros [? ?]. constructor; assumption.
    + intros H. inversion H; subst. split; assumption.
Qed.

Lemma isdigit_spec (s : str) :
  Str.isdigit s = true <-> s <> [] /\ Forall (fun c => Str.is_digit_char c = true) s.
Proof.
  destruct s as [|c s].
  - simpl. split; [discriminate | intros [H _]; congruence].
  - unfold Str.isdigit. rewrite forallb_Forall_true. split.
    + intros H. split; [discriminate | exact H].
    + intros [_ H]. exact H.
Qed.

(** ** Phone validation *)

Lemma validate_spec (s : str) :
  Phone._validate s = true <->
  length s = 10%nat /\ Forall (fun c => Str.is_digit_char c = true) s.
Proof.
  unfold Phone._validate, Str.len.
  rewrite andb_true_iff, isdigit_spec, Z.eqb_eq. split.
  - intros [[_ Hd] Hl]. split; [lia | exact Hd].
  - intros [Hl Hd]. repeat split; [| exact Hd | lia].
    intros ->. discriminate Hl.
Qed.

Lemma phone_init_cases (s : str) :
  (Phone._validate s = true /\ Phone.__init__ s = Ok s) \/
  (Phone._validate s = false /\ Phone.__init__ s = Raise (ValueError Phone.INVALID)).
Proof.
  unfold Phone.__init__. destruct (Phone._validate s); simpl; auto.
Qed.

(** C1, as the code has it: constructing a Phone from [s] succeeds exactly
    when [s] has ten characters that are all digits in the sense of
    [str.isdigit] (any Unicode digit); in particular every string of ten ASCII
    digits is accepted, and every string of another length or with a
    character that is no such digit is refused with the ValueError
    "Phone number must contain exactly 10 digits.". *)
Theorem phone_validation (s : str) :
  (Phone.__init__ s = Ok s <->
     length s = 10%nat /\ Forall (fun c => Str.is_digit_char c = true) s) /\
  (ten_ascii_digits s -> Phone.__init__ s = Ok s) /\
  (length s <> 10%nat \/ Exists (fun c => Str.is_digit_char c = false) s ->
     Phone.__init__ s = Raise (ValueError Phone.INVALID)).
Proof.
  assert (Hiff : Phone.__init__ s = Ok s <->
            length s = 10%nat /\ Forall (fun c => Str.is_digit_char c = true) s).
  { rewrite <- validate_spec.
    destruct (phone_init_cases s) as [[Hv Hi] | [Hv Hi]]; rewrite Hv, Hi.
    - split; reflexivity.
    - split; discriminate. }
  split; [exact Hiff |]. split.
  - intros [Hl Hd]. apply Hiff. split; [exact Hl |].
    eapply Forall_impl; [exact Hd |]. intros c Hc. apply ascii_digit_is_digit, Hc.
  - intros Hbad.
    destruct (phone_init_cases s) as [[Hv Hi] | [Hv Hi]]; [| exact Hi].
    apply validate_spec in Hv. destruct Hv as [Hl Hd].
    destruct Hbad as [Hne | Hex]; [contradiction |].
    apply Exists_exists in Hex. destruct Hex as (c & Hin & Hc).
    rewrite Forall_forall in Hd. rewrite (Hd c Hin) in Hc. discriminate.
Qed.

(** The theorem at the phone "1234567890". *)
Lemma phone_validation_witness :
  ten_ascii_digits (u "1234567890") /\
  Phone.__init__ (u "1234567890") = Ok (u "1234567890").
Proof.
  assert (H : ten_ascii_digits (u "1234567890")).
  { split; [reflexivity |]. repeat constructor; simpl; lia. }
  split; [exact H |].
  exact (proj1 (proj2 (phone_validation (u "1234567890"))) H).
Defined.

(** C1 as stated fails: ten Arabic-Indic digits are no ASCII digits, and the
    Phone is constructed all the same. *)
Lemma phone_validation_not_ascii_only :
  Phone.__init__ arabic_indic_phone = Ok arabic_indic_phone /\
  ~ ten_ascii_digits arabic_indic_phone.
Proof.
  split; [reflexivity |].
  intros [_ H]. inversion H as [|c l Hc _]; subst. lia.
Qed.

(** ** Dates *)

Ltac months m :=
  let H := fresh in
  assert (H : m = 1 \/ m = 2 \/ m = 3 \/ m = 4 \/ m = 5 \/ m = 6 \/
              m = 7 \/ m = 8 \/ m = 9 \/ m = 10 \/ m = 11 \/ m = 12) by lia;
  repeat (destruct H as [H | H]; [subst m |]); [.. | subst m].

Lemma is_leap_mod (y : Z) :
  datetime._is_leap y = true <->
  y mod 4 = 0 /\ (y mod 100 <> 0 \/ y mod 400 = 0).
Proof.
  unfold datetime._is_leap.
  rewrite andb_true_iff, orb_true_iff, negb_true_iff, !Z.eqb_eq, Z.eqb_neq.
  reflexivity.
Qed.

Lemma days_before_year_succ (y : Z) :
  datetime._days_before_year (y + 1) =
  datetime._days_before_year y + 365 + (if datetime._is_leap y then 1 else 0).
Proof.
  unfold datetime._days_before_year.
  replace (y + 1 - 1) with (y - 1 + 1) by lia.
  destruct (datetime._is_leap y) eqn:L.
  - apply is_leap_mod in L. Z.div_mod_to_equations. lia.
  - assert (N : ~ (y mod 4 = 0 /\ (y mod 100 <> 0 \/ y mod 400 = 0))).
    { rewrite <- is_leap_mod, L. discriminate. }
    Z.div_mod_to_equations. lia.
Qed.

Lemma days_before_year_mono (y1 y2 : Z) :
  y1 <= y2 -> datetime._days_before_year y1 <= datetime._days_before_year y2.
Proof.
  intros H. unfold datetime._days_before_year.
  Z.div_mod_to_equations. lia.
Qed.

Lemma day_of_year_bounds (d : datetime.date) :
  datetime.valid d ->
  1 <= datetime._days_before_month (datetime.year d) (datetime.month d) + datetime.day d
    <= 365 + (if datetime._is_leap (datetime.year d) then 1 else 0).
Proof.
  destruct d as [y m dd]. unfold datetime.valid; simpl. intros (_ & Hm & Hd).
  unfold datetime._days_in_month, datetime._days_before_month in *.
  months m; simpl in *; destruct (datetime._is_leap y); simpl in *; lia.
Qed.

Lemma days_in_month_bounds (y m : Z) :
  1 <= m <= 12 -> 28 <= datetime._days_in_month y m <= 31.
Proof.
  intros Hm. unfold datetime._days_in_month.
  months m; simpl; destruct (datetime._is_leap y); simpl; lia.
Qed.

Lemma lt_spec (a b : datetime.date) :
  datetime.lt a b = true <->
  datetime.year a < datetime.year b \/
  (datetime.year a = datetime.year b /\
   (datetime.month a < datetime.month b \/
    (datetime.month a = datetime.month b /\ datetime.day a < datetime.day b))).
Proof.
  unfold datetime.lt.
  rewrite !orb_true_iff, !andb_true_iff, !orb_true_iff, !andb_true_iff,
    !Z.ltb_lt, !Z.eqb_eq.
  reflexivity.
Qed.

Lemma lt_false_spec (a b : datetime.date) :
  datetime.lt a b = false <->
  datetime.year b < datetime.year a \/
  (datetime.year a = datetime.year b /\
   (datetime.month b < datetime.month a \/
    (datetime.month a = datetime.month b /\ datetime.day b <= datetime.day a))).
Proof.
  rewrite <- not_true_iff_false, lt_spec. lia.
Qed.

(** Within one year the ordinal grows with (month, day). *)
Lemma day_of_year_mono (y m1 d1 m2 d2 : Z) :
  datetime.valid (datetime.mkdate y m1 d1) ->
  datetime.valid (datetime.mkdate y m2 d2) ->
  m1 < m2 \/ (m1 = m2 /\ d1 < d2) ->
  datetime._days_before_month y m1 + d1 < datetime._days_before_month y m2 + d2.
Proof.
  unfold datetime.valid; simpl. intros (_ & Hm1 & Hd1) (_ & Hm2 & Hd2) Hlt.
  unfold datetime._days_in_month, datetime._days_before_month in *.
  months m1; months m2; simpl in *;
    destruct (datetime._is_leap y); simpl in *; lia.
Qed.

(** The ordinal is strictly increasing for the order of dates. *)
Lemma toordinal_lt (a b : datetime.date) :
  datetime.valid a -> datetime.valid b ->
  datetime.lt a b = true -> datetime.toordinal a < datetime.toordinal b.
Proof.
  intros Va Vb H. apply lt_spec in H.
  pose proof (day_of_year_bounds a Va) as Ba.
  pose proof (day_of_year_bounds b Vb) as Bb.
  destruct a as [ya ma da], b as [yb mb db].
  unfold datetime.toordinal, datetime._ymd2ord; simpl in *.
  destruct H as [Hy | [Hy Hmd]].
  - pose proof (days_before_year_succ ya) as S.
    pose proof (days_before_year_mono (ya + 1) yb ltac:(lia)) as Mo.
    lia.
  - subst yb.
    pose proof (day_of_year_mono ya ma da mb db Va Vb Hmd). lia.
Qed.

Lemma toordinal_le (a b : datetime.date) :
  datetime.valid a -> datetime.valid b ->
  datetime.lt b a = false -> datetime.toordinal a <= datetime.toordinal b.
Proof.
  intros Va Vb H.
  destruct (datetime.lt a b) eqn:L.
  - apply toordinal_lt in L; [lia | assumption | assumption].
  - apply lt_false_spec in H. apply lt_false_spec in L.
    assert (E : a = b).
    { destruct a, b; simpl in *. f_equal; lia. }
    subst. lia.
Qed.

Lemma date_new_valid (y m d : Z) :
  datetime.valid (datetime.mkdate y m d) ->
  datetime.date_new y m d = Ok (datetime.mkdate y m d).
Proof.
  unfold datetime.valid, datetime.date_new, datetime.MINYEAR, datetime.MAXYEAR.
  simpl. intros (Hy & Hm & Hd).
  replace ((1 <=? y) && (y <=? 9999)) with true by (symmetry; apply andb_true_iff; lia).
  replace ((1 <=? m) && (m <=? 12)) with true by (symmetry; apply andb_true_iff; lia).
  replace ((1 <=? d) && (d <=? datetime._days_in_month y m)) with true
    by (symmetry; apply andb_true_iff; lia).
  reflexivity.
Qed.

Lemma date_new_ok (y m d : Z) (dt : datetime.date) :
  datetime.date_new y m d = Ok dt ->
  dt = datetime.mkdate y m d /\ datetime.valid dt.
Proof.
  unfold datetime.date_new, datetime.valid, datetime.MINYEAR, datetime.MAXYEAR.
  destruct ((1 <=? y) && (y <=? 9999)) eqn:Hy; simpl; [| discriminate].
  destruct ((1 <=? m) && (m <=? 12)) eqn:Hm; simpl; [| discriminate].
  destruct ((1 <=? d) && (d <=? datetime._days_in_month y m)) eqn:Hd; simpl;
    [| discriminate].
  intros [= <-]. simpl.
  apply andb_true_iff in Hy, Hm, Hd. split; [reflexivity | lia].
Qed.

(** ** The next birthday *)

Lemma replace_year_ok (b : datetime.date) (y : Z) :
  datetime.valid b -> ~ feb29 b -> datetime.MINYEAR <= y <= datetime.MAXYEAR ->
  datetime.replace_year b y = Ok (datetime.mkdate y (datetime.month b) (datetime.day b)) /\
  datetime.valid (datetime.mkdate y (datetime.month b) (datetime.day b)).
Proof.
  intros Vb Hf Hy.
  assert (V : datetime.valid (datetime.mkdate y (datetime.month b) (datetime.day b))).
  { destruct b as [yb m d]. unfold datetime.valid, feb29 in *; simpl in *.
    destruct Vb as (_ & Hm & Hd). split; [exact Hy |]. split; [exact Hm |].
    unfold datetime._days_in_month in *.
    months m; simpl in *;
      destruct (datetime._is_leap yb); destruct (datetime._is_leap y);
      simpl in *; lia. }
  split; [| exact V]. unfold datetime.replace_year. apply date_new_valid, V.
Qed.

(** What [next_birthday] returns, when it does: the birthday's month and day
    in this year, or in the next one when this year's date is before
    [today]. *)
Lemma next_birthday_sound (today b nb : datetime.date) :
  Rec.next_birthday today b = Ok nb ->
  datetime.valid nb /\
  datetime.month nb = datetime.month b /\ datetime.day nb = datetime.day b /\
  datetime.lt nb today = false /\
  (datetime.year nb = datetime.year today \/
   (datetime.year nb = datetime.year today + 1 /\
    datetime.lt (datetime.mkdate (datetime.year today) (datetime.month b)
                   (datetime.day b)) today = true)).
Proof.
  unfold Rec.next_birthday, datetime.replace_year.
  destruct (datetime.date_new (datetime.year today) _ _) as [d1 |] eqn:R1;
    [| discriminate].
  apply date_new_ok in R1. destruct R1 as [-> V1].
  destruct (datetime.lt _ today) eqn:L; simpl.
  - intros H. apply date_new_ok in H. destruct H as [-> V2].
    split; [exact V2 |]. simpl. repeat split; auto.
    apply lt_false_spec. simpl. lia.
  - intros [= <-]. split; [exact V1 |]. simpl. repeat split; auto.
Qed.

Lemma next_birthday_ok (today b : datetime.date) :
  datetime.valid b -> datetime.valid today -> ~ feb29 b ->
  datetime.year today < datetime.MAXYEAR ->
  exists nb, Rec.next_birthday today b = Ok nb.
Proof.
  intros Vb Vt Hf Hy.
  assert (Ht : datetime.MINYEAR <= datetime.year today <= datetime.MAXYEAR)
    by (destruct Vt as (? & _); assumption).
  destruct (replace_year_ok b (datetime.year today) Vb Hf Ht) as [R1 V1].
  unfold Rec.next_birthday. rewrite R1.
  destruct (datetime.lt _ today); [| eauto].
  destruct (replace_year_ok
              (datetime.mkdate (datetime.year today) (datetime.month b) (datetime.day b))
              (datetime.year today + 1) V1 Hf) as [R2 _]; [| eauto].
  unfold datetime.MINYEAR, datetime.MAXYEAR in *. lia.
Qed.

Lemma next_birthday_least (today b nb x : datetime.date) :
  Rec.next_birthday today b = Ok nb ->
  datetime.month x = datetime.month b -> datetime.day x = datetime.day b ->
  datetime.lt x today = false -> datetime.lt x nb = false.
Proof.
  intros H Hm Hd Hx.
  destruct (next_birthday_sound _ _ _ H) as (_ & Em & Ed & _ & Hyr).
  apply lt_false_spec in Hx. apply lt_false_spec.
  destruct Hyr as [Hy | [Hy Hpast]]; [lia |].
  apply lt_spec in Hpast. simpl in Hpast. lia.
Qed.

(** The day count is 0 exactly on the birthday's month and day. *)
Lemma next_birthday_same_day (today b nb : datetime.date) :
  datetime.valid today -> Rec.next_birthday today b = Ok nb ->
  0 <= datetime.sub_days nb today /\
  (datetime.sub_days nb today = 0 <->
   datetime.month today = datetime.month b /\ datetime.day today = datetime.day b).
Proof.
  intros Vt H.
  destruct (next_birthday_sound _ _ _ H) as (Vn & Em & Ed & Hle & Hyr).
  pose proof (toordinal_le today nb Vt Vn Hle) as Ho.
  unfold datetime.sub_days. split; [lia |]. split.
  - intros Hz. destruct (datetime.lt today nb) eqn:L.
    + apply toordinal_lt in L; [lia | assumption | assumption].
    + apply lt_false_spec in L. apply lt_false_spec in Hle. lia.
  - intros [Hm Hd]. destruct Hyr as [Hy1 | [_ Hpast]].
    + assert (E : nb = today) by (destruct nb, today; simpl in *; f_equal; lia).
      subst. lia.
    + apply lt_spec in Hpast. simpl in Hpast. lia.
Qed.

Lemma deref_lookup (st : state) (l : loc) (r : record) :
  heap st !! l = Some r -> deref l st = (Ok r, st).
Proof.
  intros H. unfold deref. rewrite (list_lookup_total_correct _ _ _ H). reflexivity.
Qed.

Lemma days_to_birthday_run (today : datetime.date) (st : state) (self : loc) (r : record) :
  heap st !! self = Some r ->
  Rec.days_to_birthday today self st
  = match birthday r with
    | None => (Ok None, st)
    | Some b =>
        match Rec.next_birthday today b with
        | Ok nb => (Ok (Some (datetime.sub_days nb today)), st)
        | Raise e => (Raise e, st)
        end
    end.
Proof.
  intros H. unfold Rec.days_to_birthday, bind. rewrite (deref_lookup _ _ _ H).
  destruct (birthday r) as [b |]; [| reflexivity].
  unfold lift, ret. destruct (Rec.next_birthday today b); reflexivity.
Qed.

(** The result is None exactly when no birthday is set. *)
Lemma days_to_birthday_none (today : datetime.date) (st : state) (self : loc) (r : record) :
  heap st !! self = Some r ->
  (birthday r = None <-> Rec.days_to_birthday today self st = (Ok None, st)).
Proof.
  intros H. rewrite (days_to_birthday_run _ _ _ _ H).
  destruct (birthday r) as [b |].
  - split; [discriminate |]. destruct (Rec.next_birthday today b); discriminate.
  - split; reflexivity.
Qed.

(** C7: the day count [days_to_birthday] returns is the distance from [today]
    to the first date on or after [today] that has the birthday's month and
    day, and it is 0 exactly when [today] has that month and day; for the
    birthday "01.01.2000" it is 1 on 31.12.2024 and 0 on 01.01.2025. A count
    is returned for every birthday other than 29 February (in a year before
    the last of the calendar). *)
Theorem days_to_birthday_next_occurrence :
  Birthday.__init__ (u "01.01.2000") = Ok (datetime.mkdate 2000 1 1) /\
  Rec.days_to_birthday (datetime.mkdate 2024 12 31) 0%nat book_jan1
    = (Ok (Some 1), book_jan1) /\
  Rec.days_to_birthday (datetime.mkdate 2025 1 1) 0%nat book_jan1
    = (Ok (Some 0), book_jan1) /\
  forall (st : state) (self : loc) (r : record) (b today : datetime.date),
    heap st !! self = Some r -> birthday r = Some b ->
    datetime.valid b -> datetime.valid today ->
    (~ feb29 b -> datetime.year today < datetime.MAXYEAR ->
     exists days, Rec.days_to_birthday today self st = (Ok (Some days), st)) /\
    (forall days st',
       Rec.days_to_birthday today self st = (Ok (Some days), st') ->
       st' = st /\
       exists nb,
         days = datetime.toordinal nb - datetime.toordinal today /\
         datetime.valid nb /\
         datetime.month nb = datetime.month b /\ datetime.day nb = datetime.day b /\
         datetime.lt nb today = false /\
         (forall x, datetime.month x = datetime.month b ->
                    datetime.day x = datetime.day b ->
                    datetime.lt x today = false -> datetime.lt x nb = false) /\
         0 <= days /\
         (days = 0 <-> datetime.month today = datetime.month b /\
                       datetime.day today = datetime.day b)).
Proof.
  split; [reflexivity |]. split; [reflexivity |]. split; [reflexivity |].
  intros st self r b today Hl Hb Vb Vt.
  rewrite (days_to_birthday_run _ _ _ _ Hl), Hb. split.
  - intros Hf Hy. destruct (next_birthday_ok today b Vb Vt Hf Hy) as [nb Hn].
    rewrite Hn. eauto.
  - intros days st'. destruct (Rec.next_birthday today b) as [nb | e] eqn:Hn;
      [| discriminate].
    intros [= <- <-]. split; [reflexivity |]. exists nb.
    destruct (next_birthday_sound _ _ _ Hn) as (Vn & Em & Ed & Hle & _).
    destruct (next_birthday_same_day _ _ _ Vt Hn) as [Hpos Hzero].
    split; [reflexivity |]. split; [exact Vn |].
    split; [exact Em |]. split; [exact Ed |]. split; [exact Hle |].
    split; [| split; assumption].
    intros x. apply next_birthday_least. exact Hn.
Qed.

(** The general part at a birthday on 15 June 1990 read on 10 June 2024. *)
Lemma days_to_birthday_next_occurrence_witness :
  exists days,
    Rec.days_to_birthday (datetime.mkdate 2024 6 10) 0%nat
      (mkState [mkRecord (u "eve") [] (Some (datetime.mkdate 1990 6 15))] [])
    = (Ok (Some days),
       mkState [mkRecord (u "eve") [] (Some (datetime.mkdate 1990 6 15))] []).
Proof.
  apply (proj1 (proj2 (proj2 (proj2 days_to_birthday_next_occurrence))
                  (mkState [mkRecord (u "eve") [] (Some (datetime.mkdate 1990 6 15))] [])
                  0%nat
                  (mkRecord (u "eve") [] (Some (datetime.mkdate 1990 6 15)))
                  (datetime.mkdate 1990 6 15) (datetime.mkdate 2024 6 10)
                  eq_refl eq_refl
                  ltac:(repeat split; vm_compute; discriminate)
                  ltac:(repeat split; vm_compute; discriminate))).
  - intros [_ H]. discriminate H.
  - reflexivity.
Defined.

(** A birthday on 29 February cannot be moved to a year that is not a leap
    year: [replace] raises. *)
Lemma next_birthday_feb29 (today b : datetime.date) :
  datetime.valid today -> feb29 b -> datetime._is_leap (datetime.year today) = false ->
  Rec.next_birthday today b = Raise (ValueError (u "day is out of range for month")).
Proof.
  intros (Hy & _) [Hm Hd] L.
  unfold Rec.next_birthday, datetime.replace_year, datetime.date_new.
  rewrite Hm, Hd. unfold datetime._days_in_month. rewrite L.
  unfold datetime.MINYEAR, datetime.MAXYEAR in *.
  replace ((1 <=? datetime.year today) && (datetime.year today <=? 9999)) with true
    by (symmetry; apply andb_true_iff; lia).
  reflexivity.
Qed.

(** C2, at the failing input: the birthday "29.02.2000" is accepted and
    stored, and on 1 March 2023 the day count is not computed: the ValueError
    of [replace] comes out of [days_to_birthday]. *)
Theorem days_to_birthday_feb29_raises :
  add_birthday [u "alice"; u "29.02.2000"] empty_state
    = (Ok (u "Birthday added for alice"), book_feb29) /\
  Rec.days_to_birthday (datetime.mkdate 2023 3 1) 0%nat book_feb29
    = (Raise (ValueError (u "day is out of range for month")), book_feb29).
Proof. split; reflexivity. Qed.

(** ** Upcoming birthdays *)

Lemma upcoming_loop_defined (today : datetime.date) (st : state) (recs : list loc)
    (acc : list (str * str)) :
  Forall (fun l => next_birthday_defined today (heap st !!! l)) recs ->
  AddressBook.upcoming_loop today recs acc st
    = (Ok (acc ++ flat_map (fun l => upcoming_entry today (heap st !!! l)) recs), st).
Proof.
  revert acc. induction recs as [|l recs IH]; intros acc H.
  - simpl. unfold ret. rewrite app_nil_r. reflexivity.
  - inversion H as [|? ? Hl Hrest]; subst.
    simpl. unfold bind at 1. unfold deref at 1. unfold upcoming_entry at 1.
    destruct (birthday (heap st !!! l)) as [b |] eqn:Hb.
    + destruct (Hl b Hb) as [nb Hnb]. unfold bind, lift. rewrite Hnb.
      destruct (decide (0 <= datetime.sub_days nb today <= 7)) as [Hin | Hout].
      * replace ((0 <=? datetime.sub_days nb today) && (datetime.sub_days nb today <=? 7))
          with true by (symmetry; apply andb_true_iff; lia).
        rewrite IH by assumption. rewrite <- app_assoc. reflexivity.
      * replace ((0 <=? datetime.sub_days nb today) && (datetime.sub_days nb today <=? 7))
          with false by (symmetry; apply andb_false_iff; lia).
        rewrite IH by assumption. reflexivity.
    + rewrite IH by assumption. reflexivity.
Qed.

(** Where the next birthday of every stored record can be computed, the
    result is the list the specification describes, and nothing changes. *)
Lemma get_upcoming_birthdays_defined (today : datetime.date) (st : state) :
  Forall (fun l => next_birthday_defined today (heap st !!! l)) (dict.values (data st)) ->
  AddressBook.get_upcoming_birthdays today st = (Ok (upcoming_spec today st), st).
Proof.
  intros H. unfold AddressBook.get_upcoming_birthdays, bind, get_data.
  rewrite upcoming_loop_defined by assumption. reflexivity.
Qed.

(** A birthday 3 days away is listed, one 8 days away is not. *)
Lemma upcoming_three_and_eight_days :
  AddressBook.get_upcoming_birthdays (datetime.mkdate 2024 6 10) book_june
    = (Ok [(u "ann", u "13.06.2024")], book_june) /\
  Rec.days_to_birthday (datetime.mkdate 2024 6 10) 0%nat book_june
    = (Ok (Some 3), book_june) /\
  Rec.days_to_birthday (datetime.mkdate 2024 6 10) 1%nat book_june
    = (Ok (Some 8), book_june).
Proof. repeat split; reflexivity. Qed.

(** C3, at the failing input: with the contact born on 29 February in the
    book, on 1 March 2023 no list is returned: [get_upcoming_birthdays]
    raises, and the [birthdays] command prints the error of [replace]. *)
Theorem upcoming_birthdays_feb29_raises :
  AddressBook.get_upcoming_birthdays (datetime.mkdate 2023 3 1) book_feb29
    = (Raise (ValueError (u "day is out of range for month")), book_feb29) /\
  birthdays (datetime.mkdate 2023 3 1) [] book_feb29
    = (Ok (u "Error: day is out of range for month"), book_feb29).
Proof. split; reflexivity. Qed.

(** ** The dictionary of the address book *)

Section Dict.

Context {V : Type}.
Implicit Types (d : list (str * V)) (k : str) (v : V).

Lemma dict_get_set_eq d k v : dict.get k (dict.set k v d) = Some v.
Proof.
  induction d as [|[k' v'] d IH]; simpl.
  - rewrite decide_True by reflexivity. reflexivity.
  - destruct (decide (k' = k)) as [E | N]; simpl.
    + rewrite decide_True by assumption. reflexivity.
    + rewrite decide_False by assumption. exact IH.
Qed.

Lemma dict_get_set_ne d k k0 v : k0 <> k -> dict.get k0 (dict.set k v d) = dict.get k0 d.
Proof.
  intros Hne. induction d as [|[k' v'] d IH]; simpl.
  - rewrite decide_False by congruence. reflexivity.
  - destruct (decide (k' = k)) as [E | N]; simpl.
    + subst k'. rewrite !decide_False by congruence. reflexivity.
    + destruct (decide (k' = k0)); [reflexivity | exact IH].
Qed.

Lemma dict_set_absent d k v : dict.get k d = None -> dict.set k v d = d ++ [(k, v)].
Proof.
  induction d as [|[k' v'] d IH]; simpl; [reflexivity |].
  destruct (decide (k' = k)); [discriminate |].
  intros H. rewrite IH by assumption. reflexivity.
Qed.

Lemma entries_under_cons d k k' v :
  entries_under k ((k', v) :: d)
  = ((if decide (k' = k) then 1 else 0) + entries_under k d)%nat.
Proof.
  unfold entries_under. rewrite filter_cons. simpl.
  destruct (decide (k' = k)); reflexivity.
Qed.

Lemma entries_under_absent d k : dict.get k d = None -> entries_under k d = 0%nat.
Proof.
  induction d as [|[k' v'] d IH]; [reflexivity |].
  simpl. rewrite entries_under_cons.
  destruct (decide (k' = k)); [discriminate |]. exact IH.
Qed.

Lemma entries_under_set_eq d k v :
  entries_under k (dict.set k v d) = Nat.max 1 (entries_under k d).
Proof.
  induction d as [|[k' v'] d IH]; simpl.
  - rewrite entries_under_cons, decide_True by reflexivity. reflexivity.
  - destruct (decide (k' = k)) as [E | N].
    + rewrite !entries_under_cons, !decide_True by assumption. lia.
    + rewrite !entries_under_cons, !decide_False by assumption. exact IH.
Qed.

Lemma entries_under_set_ne d k k0 v :
  k0 <> k -> entries_under k0 (dict.set k v d) = entries_under k0 d.
Proof.
  intros Hne. induction d as [|[k' v'] d IH]; simpl.
  - rewrite entries_under_cons, decide_False by congruence. reflexivity.
  - destruct (decide (k' = k)) as [E | N].
    + rewrite !entries_under_cons. reflexivity.
    + rewrite !entries_under_cons, IH. reflexivity.
Qed.

Lemma entries_under_del d k k0 : (entries_under k0 (dict.del k d) <= entries_under k0 d)%nat.
Proof.
  induction d as [|[k' v'] d IH]; simpl; [lia |].
  destruct (decide (k' = k)); rewrite ?entries_under_cons; lia.
Qed.

End Dict.

Lemma add_record_run (st : state) (l : loc) :
  AddressBook.add_record l st
  = (Ok tt, mkState (heap st) (dict.set (name (heap st !!! l)) l (data st))).
Proof. reflexivity. Qed.

Lemma delete_run (st : state) (k : str) :
  AddressBook.delete k st
  = (Ok tt, mkState (heap st)
              (if dict.contains k (data st) then dict.del k (data st) else data st)).
Proof.
  unfold AddressBook.delete, bind, get_data.
  destruct (dict.contains k (data st)); destruct st; reflexivity.
Qed.

Lemma reachable_one_per_name (st : state) :
  reachable st -> forall k, (entries_under k (data st) <= 1)%nat.
Proof.
  induction 1 as [| st l _ IH | st k0 _ IH | st r _ IH | st l f _ IH]; intros k.
  - simpl. unfold entries_under. simpl. lia.
  - rewrite add_record_run. simpl.
    destruct (decide (k = name (heap st !!! l))) as [-> | N].
    + rewrite entries_under_set_eq. specialize (IH (name (heap st !!! l))). lia.
    + rewrite entries_under_set_ne by assumption. apply IH.
  - rewrite delete_run. simpl. destruct (dict.contains k0 (data st)).
    + etransitivity; [apply entries_under_del | apply IH].
    + apply IH.
  - simpl. apply IH.
  - simpl. apply IH.
Qed.

(** C4: [add_record] never fails and stores the record under its name,
    leaving every other name as it was; two records of the same name added
    one after the other leave one entry, the second; and every book reached
    by [add_record] and [delete] has at most one entry per name. *)
Theorem add_record_upsert :
  (forall (st : state) (l : loc),
     exists st', AddressBook.add_record l st = (Ok tt, st')) /\
  (forall (st : state) (l : loc) (r : record),
     heap st !! l = Some r ->
     exists st',
       AddressBook.add_record l st = (Ok tt, st') /\ heap st' = heap st /\
       dict.get (name r) (data st') = Some l /\
       forall k, k <> name r -> dict.get k (data st') = dict.get k (data st)) /\
  (forall (st : state) (l1 l2 : loc) (r1 r2 : record),
     reachable st ->
     heap st !! l1 = Some r1 -> heap st !! l2 = Some r2 -> name r1 = name r2 ->
     exists st1 st2,
       AddressBook.add_record l1 st = (Ok tt, st1) /\
       AddressBook.add_record l2 st1 = (Ok tt, st2) /\
       entries_under (name r1) (data st2) = 1%nat /\
       dict.get (name r1) (data st2) = Some l2) /\
  (forall st : state, reachable st ->
     forall k, (entries_under k (data st) <= 1)%nat).
Proof.
  split; [| split; [| split]].
  - intros st l. rewrite add_record_run. eauto.
  - intros st l r Hl. eexists. rewrite add_record_run.
    rewrite (list_lookup_total_correct _ _ _ Hl). simpl.
    split; [reflexivity |]. split; [reflexivity |]. split.
    + apply dict_get_set_eq.
    + intros k Hk. apply dict_get_set_ne. exact Hk.
  - intros st l1 l2 r1 r2 Hr H1 H2 Hn.
    exists (mkState (heap st) (dict.set (name r1) l1 (data st))),
      (mkState (heap st) (dict.set (name r2) l2 (dict.set (name r1) l1 (data st)))).
    rewrite !add_record_run. simpl.
    rewrite (list_lookup_total_correct _ _ _ H1), (list_lookup_total_correct _ _ _ H2).
    split; [reflexivity |]. split; [reflexivity |]. rewrite <- Hn.
    split; [| apply dict_get_set_eq].
    rewrite !entries_under_set_eq.
    pose proof (reachable_one_per_name st Hr (name r1)). lia.
  - exact reachable_one_per_name.
Qed.

(** The theorem at two records named "alice" added to the empty book. *)
Lemma add_record_upsert_witness :
  exists st1 st2,
    AddressBook.add_record 0%nat
      (mkState [mkRecord (u "alice") [] None; mkRecord (u "alice") [u "1234567890"] None] [])
      = (Ok tt, st1) /\
    AddressBook.add_record 1%nat st1 = (Ok tt, st2) /\
    entries_under (u "alice") (data st2) = 1%nat /\
    dict.get (u "alice") (data st2) = Some 1%nat.
Proof.
  apply (proj1 (proj2 (proj2 add_record_upsert))
           (mkState [mkRecord (u "alice") [] None;
                     mkRecord (u "alice") [u "1234567890"] None] [])
           0%nat 1%nat
           (mkRecord (u "alice") [] None)
           (mkRecord (u "alice") [u "1234567890"] None)).
  - apply (reach_alloc (mkState [mkRecord (u "alice") [] None] [])).
    apply (reach_alloc empty_state). apply reach_empty.
  - reflexivity.
  - reflexivity.
  - reflexivity.
Defined.

(** ** Editing a phone *)

Lemma PhoneNotFound_neq_InvalidPhone (old_phone : str) :
  PhoneNotFound old_phone <> InvalidPhone.
Proof.
  unfold PhoneNotFound, InvalidPhone. intros [= H].
  apply (f_equal (@rev Z)) in H. rewrite !rev_app_distr in H.
  vm_compute in H. discriminate H.
Qed.

Lemma alter_as_insert {A} (f : A -> A) (l : list A) (i : nat) (x : A) :
  l !! i = Some x -> alter f i l = <[i := f x]> l.
Proof.
  revert i. induction l as [|y l IH]; intros [|i] H; simpl in *; try discriminate.
  - injection H as ->. reflexivity.
  - f_equal. apply IH, H.
Qed.

Section EditPhone.

Variables (self : loc) (old_phone new_phone : str).

Lemma edit_phone_loop_not_found (i : nat) (ps : list str) (st : state) :
  old_phone ∉ ps ->
  Rec.edit_phone_loop self old_phone new_phone i ps st
  = (Raise (PhoneNotFound old_phone), st).
Proof.
  revert i. induction ps as [|p ps IH]; intros i H; simpl.
  - reflexivity.
  - apply not_elem_of_cons in H. destruct H as [Hne Hps].
    rewrite decide_False by congruence. apply IH, Hps.
Qed.

Lemma edit_phone_loop_found (i : nat) (pre post : list str) (st : state) :
  old_phone ∉ pre ->
  Rec.edit_phone_loop self old_phone new_phone i (pre ++ old_phone :: post) st
  = match Phone.__init__ new_phone with
    | Ok q =>
        update self
          (fun r => mkRecord (name r) (<[(i + length pre)%nat := q]> (phones r)) (birthday r))
          st
    | Raise e => (Raise e, st)
    end.
Proof.
  revert i. induction pre as [|p pre IH]; intros i H; simpl.
  - rewrite decide_True by reflexivity. rewrite Nat.add_0_r.
    unfold bind, lift. destruct (Phone.__init__ new_phone); reflexivity.
  - apply not_elem_of_cons in H. destruct H as [Hne Hpre].
    rewrite decide_False by congruence. rewrite IH by assumption.
    replace (S i + length pre)%nat with (i + S (length pre))%nat by lia.
    reflexivity.
Qed.

Lemma edit_phone_not_found (st : state) :
  old_phone ∉ phones (heap st !!! self) ->
  Rec.edit_phone self old_phone new_phone st = (Raise (PhoneNotFound old_phone), st).
Proof.
  intros H. unfold Rec.edit_phone, bind, deref.
  apply edit_phone_loop_not_found, H.
Qed.

Lemma edit_phone_invalid (st : state) :
  old_phone ∈ phones (heap st !!! self) -> Phone._validate new_phone = false ->
  Rec.edit_phone self old_phone new_phone st = (Raise InvalidPhone, st).
Proof.
  intros Hin Hv. unfold Rec.edit_phone, bind, deref.
  apply list_elem_of_split_l in Hin. destruct Hin as (pre & post & -> & Hpre).
  rewrite edit_phone_loop_found by assumption.
  unfold Phone.__init__. rewrite Hv. reflexivity.
Qed.

Lemma edit_phone_replaces (st : state) (r : record) (pre post : list str) :
  heap st !! self = Some r ->
  phones r = pre ++ old_phone :: post -> old_phone ∉ pre ->
  Phone._validate new_phone = true ->
  Rec.edit_phone self old_phone new_phone st
  = (Ok tt,
     mkState (<[self := mkRecord (name r) (pre ++ new_phone :: post) (birthday r)]> (heap st))
             (data st)).
Proof.
  intros Hl Hp Hpre Hv. unfold Rec.edit_phone, bind. rewrite (deref_lookup _ _ _ Hl).
  rewrite Hp, edit_phone_loop_found by assumption.
  unfold Phone.__init__. rewrite Hv. simpl. unfold update.
  rewrite (alter_as_insert _ _ _ _ Hl), Hp. simpl.
  replace (length pre) with (length pre + 0)%nat by lia.
  rewrite insert_app_r. reflexivity.
Qed.

End EditPhone.

(** C5: [edit_phone] puts the validated new phone in the
    place of the first phone equal to the old one; it fails with
    PhoneNotFound when no phone equals the old one, whatever the new one is,
    and with InvalidPhone when some phone equals the old one and the new one
    fails validation. On the phones ["1111111111"], editing "1111111111" to
    "2222222222" gives ["2222222222"], and editing "9999999999" fails with
    PhoneNotFound. *)
Theorem edit_phone_first_match :
  Rec.edit_phone 0%nat (u "1111111111") (u "2222222222") book_ones
    = (Ok tt, mkState [mkRecord (u "carl") [u "2222222222"] None] (data book_ones)) /\
  Rec.edit_phone 0%nat (u "9999999999") (u "2222222222") book_ones
    = (Raise (PhoneNotFound (u "9999999999")), book_ones) /\
  forall (st : state) (self : loc) (r : record) (old_phone new_phone : str),
    heap st !! self = Some r ->
    (forall pre post,
       phones r = pre ++ old_phone :: post -> old_phone ∉ pre ->
       Phone._validate new_phone = true ->
       Rec.edit_phone self old_phone new_phone st
       = (Ok tt,
          mkState (<[self := mkRecord (name r) (pre ++ new_phone :: post) (birthday r)]> (heap st))
                  (data st))) /\
    (old_phone ∉ phones r ->
       Rec.edit_phone self old_phone new_phone st = (Raise (PhoneNotFound old_phone), st)) /\
    (old_phone ∈ phones r -> Phone._validate new_phone = false ->
       Rec.edit_phone self old_phone new_phone st = (Raise InvalidPhone, st)).
Proof.
  split; [reflexivity |]. split; [reflexivity |].
  intros st self r old_phone new_phone Hl.
  pose proof (list_lookup_total_correct _ _ _ Hl) as Ht.
  split; [| split].
  - intros pre post. apply edit_phone_replaces. exact Hl.
  - intros H. apply edit_phone_not_found. rewrite Ht. exact H.
  - intros H Hv. apply edit_phone_invalid; [rewrite Ht; exact H | exact Hv].
Qed.

(** The theorem at the phones ["5555555555"; "1111111111"; "1111111111"]:
    the first "1111111111" is replaced. *)
Lemma edit_phone_first_match_witness :
  Rec.edit_phone 0%nat (u "1111111111") (u "2222222222")
    (mkState [mkRecord (u "dan") [u "5555555555"; u "1111111111"; u "1111111111"] None] [])
  = (Ok tt,
     mkState [mkRecord (u "dan") [u "5555555555"; u "2222222222"; u "1111111111"] None] []).
Proof.
  apply (proj1 (proj2 (proj2 edit_phone_first_match)
                  (mkState [mkRecord (u "dan")
                              [u "5555555555"; u "1111111111"; u "1111111111"] None] [])
                  0%nat
                  (mkRecord (u "dan") [u "5555555555"; u "1111111111"; u "1111111111"] None)
                  (u "1111111111") (u "2222222222") eq_refl)
           [u "5555555555"] [u "1111111111"]).
  - reflexivity.
  - intros H. apply list_elem_of_singleton in H. discriminate H.
  - reflexivity.
Defined.

(** C9: a failing [edit_phone] leaves the whole store, and so the phone list,
    as it was; it fails with PhoneNotFound when no phone equals the old one,
    also when the new phone is invalid, and with InvalidPhone otherwise. *)
Theorem edit_phone_failure_unchanged :
  (forall (st st' : state) (self : loc) (old_phone new_phone : str) (e : exn),
     Rec.edit_phone self old_phone new_phone st = (Raise e, st') ->
     st' = st /\
     (((old_phone ∉ phones (heap st !!! self)) /\ e = PhoneNotFound old_phone) \/
      (old_phone ∈ phones (heap st !!! self) /\ Phone._validate new_phone = false /\
       e = InvalidPhone))) /\
  (forall (st : state) (self : loc) (old_phone new_phone : str),
     old_phone ∉ phones (heap st !!! self) ->
     Rec.edit_phone self old_phone new_phone st = (Raise (PhoneNotFound old_phone), st)) /\
  (forall (st : state) (self : loc) (old_phone new_phone : str),
     old_phone ∈ phones (heap st !!! self) -> Phone._validate new_phone = false ->
     Rec.edit_phone self old_phone new_phone st = (Raise InvalidPhone, st)).
Proof.
  split; [| split].
  - intros st st' self old_phone new_phone e H.
    destruct (decide (old_phone ∈ phones (heap st !!! self))) as [Hin | Hout].
    + destruct (Phone._validate new_phone) eqn:Hv.
      * exfalso. revert H. unfold Rec.edit_phone, bind, deref.
        apply list_elem_of_split_l in Hin. destruct Hin as (pre & post & -> & Hpre).
        rewrite edit_phone_loop_found by assumption.
        unfold Phone.__init__. rewrite Hv. simpl. unfold update. discriminate.
      * rewrite edit_phone_invalid in H by assumption.
        injection H as <- <-. split; [reflexivity |]. right. auto.
    + rewrite edit_phone_not_found in H by assumption.
      injection H as <- <-. split; [reflexivity |]. left. auto.
  - intros st self old_phone new_phone. apply edit_phone_not_found.
  - intros st self old_phone new_phone. apply edit_phone_invalid.
Qed.

(** The theorem at the phones ["1111111111"], the old phone "9999999999" and
    the invalid new phone "abc". *)
Lemma edit_phone_failure_unchanged_witness :
  Rec.edit_phone 0%nat (u "9999999999") (u "abc") book_ones
  = (Raise (PhoneNotFound (u "9999999999")), book_ones).
Proof.
  apply (proj1 (proj2 edit_phone_failure_unchanged) book_ones 0%nat
           (u "9999999999") (u "abc")).
  intros H. apply list_elem_of_singleton in H. discriminate H.
Defined.

(** ** Parsing a command line *)

Lemma split_aux_nonempty (cur s : str) :
  Forall (fun t => t <> []) (Str.split_aux cur s).
Proof.
  revert cur. induction s as [|c s IH]; intros cur; simpl.
  - destruct cur as [|x cur]; constructor; [| constructor].
    intros H. apply (f_equal (@length Z)) in H.
    rewrite length_rev in H. discriminate H.
  - destruct (Str.is_space_char c); [| apply IH].
    destruct cur as [|x cur]; [apply IH |].
    constructor; [| apply IH].
    intros H. apply (f_equal (@length Z)) in H.
    rewrite length_rev in H. discriminate H.
Qed.

(** The command and its arguments are never empty strings. *)
Lemma parse_input_args_nonempty (lower : str -> str) (user_input cmd : str)
    (args : list str) :
  parse_input lower user_input = (cmd, args) -> Forall (fun t => t <> []) args.
Proof.
  unfold parse_input, Str.split.
  pose proof (split_aux_nonempty [] (Str.strip user_input)) as H.
  destruct (Str.split_aux [] (Str.strip user_input)) as [|c rest].
  - intros [= <- <-]. constructor.
  - intros [= <- <-]. inversion H; assumption.
Qed.

(** ** The add command *)

Lemma add_contact_new_invalid_phone (st : state) (name phone : str) (rest : list str) :
  dict.get name (data st) = None -> phone <> [] -> Phone._validate phone = false ->
  add_contact (name :: phone :: rest) st
  = (Ok (u "Error: " ++ Phone.INVALID),
     mkState (heap st ++ [mkRecord name [] None])
             (data st ++ [(name, length (heap st))])).
Proof.
  intros Habs Hne Hv.
  unfold add_contact, input_error, bind, AddressBook.find, get_data, ret.
  simpl. rewrite Habs. simpl.
  unfold AddressBook.add_record, bind, deref, get_data, set_data. simpl.
  rewrite list_lookup_total_middle by reflexivity. simpl.
  rewrite dict_set_absent by assumption.
  destruct phone as [|c phone]; [congruence |].
  unfold Rec.add_phone, bind, lift, Phone.__init__. rewrite Hv. reflexivity.
Qed.

Lemma step_add (lower : str -> str) (today : datetime.date) (user_input : str)
    (args : list str) (st : state) :
  parse_input lower user_input = (u "add", args) ->
  step lower today user_input st
  = match add_contact args st with
    | (Ok s, st') => (Ok (s, true), st')
    | (Raise e, st') => (Raise e, st')
    end.
Proof.
  intros Hp. unfold step. rewrite Hp.
  destruct (decide _) as [[H | H] | _]; [vm_compute in H; discriminate H .. |].
  destruct (decide _) as [H | _]; [vm_compute in H; discriminate H |].
  rewrite decide_True by reflexivity.
  unfold bind, ret. destruct (add_contact args st) as [[s | e] st']; reflexivity.
Qed.

(** C10: the add command for a name that is not in the book, with a phone
    that fails validation, prints the validation error, and the record
    created for the name stays in the book, with no phone. *)
Theorem add_invalid_phone_keeps_record (lower : str -> str) (today : datetime.date)
    (user_input : str) (st : state) (name phone : str) (rest : list str) :
  parse_input lower user_input = (u "add", name :: phone :: rest) ->
  dict.get name (data st) = None ->
  Phone._validate phone = false ->
  exists st',
    step lower today user_input st
      = (Ok (u "Error: Phone number must contain exactly 10 digits.", true), st') /\
    dict.get name (data st') = Some (length (heap st)) /\
    heap st' !! length (heap st) = Some (mkRecord name [] None) /\
    heap st' = heap st ++ [mkRecord name [] None] /\
    data st' = data st ++ [(name, length (heap st))].
Proof.
  intros Hp Habs Hv.
  pose proof (parse_input_args_nonempty _ _ _ _ Hp) as Hargs.
  assert (Hne : phone <> []).
  { inversion Hargs as [|? ? _ Hr]; subst. inversion Hr; assumption. }
  eexists. rewrite (step_add _ _ _ _ _ Hp).
  rewrite add_contact_new_invalid_phone by assumption.
  split; [reflexivity |]. simpl.
  rewrite <- (dict_set_absent (data st) name (length (heap st)) Habs).
  split; [apply dict_get_set_eq |]. split; [| split; reflexivity].
  apply list_lookup_middle. reflexivity.
Qed.

(** The theorem at the line "add bob 123" typed into the empty book. *)
Lemma add_invalid_phone_keeps_record_witness :
  exists st',
    step (fun s => s) (datetime.mkdate 2024 6 10) (u "add bob 123") empty_state
      = (Ok (u "Error: Phone number must contain exactly 10 digits.", true), st') /\
    dict.get (u "bob") (data st') = Some 0%nat /\
    heap st' !! 0%nat = Some (mkRecord (u "bob") [] None) /\
    heap st' = [mkRecord (u "bob") [] None] /\
    data st' = [(u "bob", 0%nat)].
Proof.
  apply (add_invalid_phone_keeps_record (fun s => s) (datetime.mkdate 2024 6 10)
           (u "add bob 123") empty_state (u "bob") (u "123") []).
  - reflexivity.
  - reflexivity.
  - reflexivity.
Defined.

(** ** What the handlers raise and print *)

Lemma raises_caught_ret {A} (a : A) : raises_caught (ret a).
Proof. intros st e st' H. discriminate H. Qed.

Lemma raises_caught_raise {A} (e : exn) : caught e = true -> raises_caught (@raise A e).
Proof. intros He st e' st' [= <- _]. exact He. Qed.

Lemma raises_caught_bind {A B} (c : M A) (k : A -> M B) :
  raises_caught c -> (forall a, raises_caught (k a)) -> raises_caught (bind c k).
Proof.
  intros Hc Hk st e st'. unfold bind.
  destruct (c st) as [[a | e0] st0] eqn:E.
  - apply Hk.
  - intros [= <- <-]. eapply Hc, E.
Qed.

Lemma raises_caught_lift {A} (o : outcome A) :
  (forall e, o = Raise e -> caught e = true) -> raises_caught (lift o).
Proof. intros H st e st' [= -> _]. apply H. reflexivity. Qed.

Lemma raises_caught_deref (l : loc) : raises_caught (deref l).
Proof. intros st e st' H. discriminate H. Qed.

Lemma raises_caught_update (l : loc) (f : record -> record) : raises_caught (update l f).
Proof. intros st e st' H. discriminate H. Qed.

Lemma raises_caught_alloc (r : record) : raises_caught (alloc r).
Proof. intros st e st' H. discriminate H. Qed.

Lemma raises_caught_get_data : raises_caught get_data.
Proof. intros st e st' H. discriminate H. Qed.

Lemma raises_caught_set_data (d : list (str * nat)) : raises_caught (set_data d).
Proof. intros st e st' H. discriminate H. Qed.

Ltac caught_step :=
  first [ apply raises_caught_bind; [| intros ?]
        | apply raises_caught_ret | apply raises_caught_deref
        | apply raises_caught_update | apply raises_caught_alloc
        | apply raises_caught_get_data | apply raises_caught_set_data
        | apply raises_caught_raise; reflexivity ].

Lemma phone_init_raises (value : str) (e : exn) :
  Phone.__init__ value = Raise e -> caught e = true.
Proof.
  unfold Phone.__init__. destruct (negb _); intros [= <-]. reflexivity.
Qed.

Lemma birthday_init_raises (value : str) (e : exn) :
  Birthday.__init__ value = Raise e -> caught e = true.
Proof.
  unfold Birthday.__init__. destruct (datetime.strptime_dmY value); intros [= <-].
  reflexivity.
Qed.

Lemma date_new_raises (y m d : Z) (e : exn) :
  datetime.date_new y m d = Raise e -> caught e = true.
Proof.
  unfold datetime.date_new.
  repeat (destruct (negb _); [intros [= <-]; reflexivity |]).
  discriminate.
Qed.

Lemma next_birthday_raises (today b : datetime.date) (e : exn) :
  Rec.next_birthday today b = Raise e -> caught e = true.
Proof.
  unfold Rec.next_birthday, datetime.replace_year.
  destruct (datetime.date_new (datetime.year today) _ _) as [nb | e0] eqn:E.
  - destruct (datetime.lt nb today); [apply date_new_raises | discriminate].
  - intros [= <-]. eapply date_new_raises, E.
Qed.

Lemma raises_caught_add_phone (self : loc) (phone : str) :
  raises_caught (Rec.add_phone self phone).
Proof.
  unfold Rec.add_phone. caught_step; [| caught_step].
  apply raises_caught_lift, phone_init_raises.
Qed.

Lemma raises_caught_edit_phone (self : loc) (old_phone new_phone : str) :
  raises_caught (Rec.edit_phone self old_phone new_phone).
Proof.
  unfold Rec.edit_phone. caught_step; [caught_step |].
  generalize 0%nat. induction (phones a) as [|p ps IH]; intros i; simpl.
  - caught_step.
  - destruct (decide (p = old_phone)); [| apply IH].
    caught_step; [| caught_step]. apply raises_caught_lift, phone_init_raises.
Qed.

Lemma raises_caught_add_birthday (self : loc) (bday : str) :
  raises_caught (Rec.add_birthday self bday).
Proof.
  unfold Rec.add_birthday. caught_step; [| caught_step].
  apply raises_caught_lift, birthday_init_raises.
Qed.

Lemma raises_caught_add_record (rec : loc) : raises_caught (AddressBook.add_record rec).
Proof. unfold AddressBook.add_record. repeat caught_step. Qed.

Lemma raises_caught_find (name : str) : raises_caught (AddressBook.find name).
Proof. unfold AddressBook.find. repeat caught_step. Qed.

Lemma raises_caught_upcoming_loop (today : datetime.date) (recs : list loc)
    (acc : list (str * str)) :
  raises_caught (AddressBook.upcoming_loop today recs acc).
Proof.
  revert acc. induction recs as [|l recs IH]; intros acc; simpl.
  - caught_step.
  - caught_step; [caught_step |].
    destruct (birthday a) as [b |]; [| apply IH].
    caught_step; [apply raises_caught_lift, next_birthday_raises |].
    destruct (_ && _); apply IH.
Qed.

Lemma raises_caught_str_all (recs : list loc) : raises_caught (str_all recs).
Proof.
  induction recs as [|l recs IH]; simpl.
  - caught_step.
  - caught_step; [unfold Rec.__str__; repeat caught_step |].
    caught_step; [apply IH | caught_step].
Qed.

Lemma input_error_total (func : M str) (st : state) :
  raises_caught func -> exists s st', input_error func st = (Ok s, st').
Proof.
  intros H. unfold input_error.
  destruct (func st) as [[s | e] st'] eqn:E; [eauto |].
  pose proof (H _ _ _ E) as He.
  destruct e; try discriminate He; eauto.
Qed.

(** Every handler returns a line to print: no exception leaves them. *)
Lemma handlers_return (today : datetime.date) (args : list str) (st : state) :
  (exists s st', add_contact args st = (Ok s, st')) /\
  (exists s st', change_contact args st = (Ok s, st')) /\
  (exists s st', show_phone args st = (Ok s, st')) /\
  (exists s st', show_all st = (Ok s, st')) /\
  (exists s st', add_birthday args st = (Ok s, st')) /\
  (exists s st', show_birthday args st = (Ok s, st')) /\
  (exists s st', birthdays today args st = (Ok s, st')).
Proof.
  repeat split; apply input_error_total.
  - destruct args as [|name [|phone rest]]; try (caught_step; fail).
    caught_step; [apply raises_caught_find |].
    caught_step.
    + destruct a; [caught_step |].
      caught_step; [unfold Rec.__init__; caught_step |].
      caught_step; [apply raises_caught_add_record | caught_step].
    + caught_step; [| caught_step].
      destruct phone; [caught_step | apply raises_caught_add_phone].
  - destruct args as [|name [|old_phone [|new_phone rest]]]; try (caught_step; fail).
    caught_step; [apply raises_caught_find |].
    caught_step; [| caught_step].
    destruct a; [apply raises_caught_edit_phone | caught_step].
  - destruct args as [|name rest]; [caught_step |].
    caught_step; [apply raises_caught_find |].
    destruct a; repeat caught_step.
  - caught_step; [caught_step |].
    destruct a; [caught_step |].
    caught_step; [apply raises_caught_str_all | caught_step].
  - destruct args as [|name [|bday [|x rest]]]; try (caught_step; fail).
    caught_step; [apply raises_caught_find |].
    caught_step.
    + destruct a; [caught_step |].
      caught_step; [unfold Rec.__init__; caught_step |].
      caught_step; [apply raises_caught_add_record | caught_step].
    + caught_step; [apply raises_caught_add_birthday | caught_step].
  - destruct args as [|name rest]; [caught_step |].
    caught_step; [apply raises_caught_find |].
    destruct a; [| caught_step].
    caught_step; [caught_step |].
    destruct (birthday a); caught_step.
  - caught_step.
    + unfold AddressBook.get_upcoming_birthdays.
      caught_step; [caught_step | apply raises_caught_upcoming_loop].
    + destruct a; caught_step.
Qed.

(** Indexing an empty argument list is an IndexError, which the decorator
    reports as missing arguments. *)
Lemma index_missing_argument (st : state) :
  show_phone [] st = (Ok NOT_ENOUGH_ARGUMENTS, st) /\
  show_birthday [] st = (Ok NOT_ENOUGH_ARGUMENTS, st).
Proof. split; reflexivity. Qed.

(** Unpacking too few arguments is a ValueError, which the decorator reports
    with the text of the exception. *)
Lemma unpack_missing_argument (args : list str) (st : state) :
  ((length args < 2)%nat ->
     add_contact args st
     = (Ok (u "Error: not enough values to unpack (expected at least 2, got "
              ++ Str.of_nat (length args) ++ u ")"), st)) /\
  ((length args < 3)%nat ->
     change_contact args st
     = (Ok (u "Error: not enough values to unpack (expected at least 3, got "
              ++ Str.of_nat (length args) ++ u ")"), st)) /\
  ((length args < 2)%nat ->
     add_birthday args st
     = (Ok (u "Error: not enough values to unpack (expected 2, got "
              ++ Str.of_nat (length args) ++ u ")"), st)).
Proof.
  split; [| split]; intros H.
  - destruct args as [|a [|b rest]]; [reflexivity | reflexivity | simpl in H; lia].
  - destruct args as [|a [|b [|c rest]]];
      [reflexivity | reflexivity | reflexivity | simpl in H; lia].
  - destruct args as [|a [|b rest]]; [reflexivity | reflexivity | simpl in H; lia].
Qed.

(** A contact that is not in the book: [find] gives None, and the attribute
    access on it is reported as a contact to add first. *)
Lemma missing_contact_message (st : state) (name : str) (rest : list str) :
  dict.get name (data st) = None ->
  show_phone (name :: rest) st = (Ok CONTACT_NOT_FOUND_ADD, st) /\
  show_birthday (name :: rest) st = (Ok CONTACT_NOT_FOUND_ADD, st) /\
  forall old_phone new_phone,
    change_contact (name :: old_phone :: new_phone :: rest) st
    = (Ok CONTACT_NOT_FOUND_ADD, st).
Proof.
  intros H.
  unfold show_phone, show_birthday, change_contact, input_error, bind,
    AddressBook.find, get_data, ret.
  simpl. rewrite H. simpl. auto.
Qed.

(** A date that does not parse is reported with the message of Birthday. *)
Lemma invalid_birthday_message (st : state) (name bday : str) (l : loc) :
  dict.get name (data st) = Some l -> datetime.strptime_dmY bday = None ->
  add_birthday [name; bday] st = (Ok (u "Error: " ++ Birthday.INVALID), st).
Proof.
  intros Hf Hp.
  unfold add_birthday, input_error, bind, AddressBook.find, get_data, ret.
  simpl. rewrite Hf. simpl.
  unfold Rec.add_birthday, bind, lift, Birthday.__init__. rewrite Hp. reflexivity.
Qed.

(** C6, at the failing input: [add alice] with the phone missing does not
    print the message for missing arguments but the text of the unpacking
    error, and so do [change] and [add-birthday]; [phone] and
    [show-birthday], which index their arguments, print the message. *)
Theorem missing_arguments_unpack_message :
  add_contact [u "alice"] empty_state
    = (Ok (u "Error: not enough values to unpack (expected at least 2, got 1)"),
       empty_state) /\
  change_contact [u "alice"; u "1111111111"] empty_state
    = (Ok (u "Error: not enough values to unpack (expected at least 3, got 2)"),
       empty_state) /\
  add_birthday [u "alice"] empty_state
    = (Ok (u "Error: not enough values to unpack (expected 2, got 1)"), empty_state) /\
  u "Error: not enough values to unpack (expected at least 2, got 1)"
    <> NOT_ENOUGH_ARGUMENTS /\
  show_phone [] empty_state = (Ok NOT_ENOUGH_ARGUMENTS, empty_state) /\
  show_birthday [] empty_state = (Ok NOT_ENOUGH_ARGUMENTS, empty_state).
Proof.
  repeat split; try reflexivity.
  intros H. vm_compute in H. discriminate H.
Qed.

(** ** Parsing and rendering a birthday *)

Ltac digits c :=
  let H := fresh in
  assert (H : c = 48 \/ c = 49 \/ c = 50 \/ c = 51 \/ c = 52 \/ c = 53 \/
              c = 54 \/ c = 55 \/ c = 56 \/ c = 57)
    by (unfold is_ascii_digit in *; lia);
  repeat (destruct H as [H | H]; [subst c |]); [.. | subst c].

Lemma ascii_digit_not_space (c : Z) : is_ascii_digit c -> Str.is_space_char c = false.
Proof. intros H. digits c; reflexivity. Qed.

Lemma ascii_digit_value (c : Z) : is_ascii_digit c -> Str.decimal_value c = c - 48.
Proof. intros H. digits c; reflexivity. Qed.

Lemma str_eqb_eq (s t : str) : str_eqb s t = true -> s = t.
Proof.
  revert t. induction s as [|c s IH]; intros [|c' t]; simpl; try discriminate.
  - reflexivity.
  - intros H. apply andb_true_iff in H. destruct H as [Hc Hs].
    apply Z.eqb_eq in Hc. subst. f_equal. apply IH, Hs.
Qed.

Lemma lstrip_no_space (s : str) :
  Forall (fun c => Str.is_space_char c = false) s -> Str.lstrip s = s.
Proof.
  intros H. destruct H as [|c s Hc _]; [reflexivity |].
  simpl. rewrite Hc. reflexivity.
Qed.

Lemma strip_no_space (s : str) :
  Forall (fun c => Str.is_space_char c = false) s -> Str.strip s = s.
Proof.
  intros H. unfold Str.strip. rewrite (lstrip_no_space s H).
  rewrite lstrip_no_space.
  - apply rev_involutive.
  - apply Forall_rev, H.
Qed.

(** [int] on a string of ASCII digits. *)
Lemma int_ascii_digits (s : str) :
  s <> [] -> Forall is_ascii_digit s ->
  Str.int s = Some (fold_left (fun acc c => 10 * acc + (c - 48)) s 0).
Proof.
  intros Hne Hd. unfold Str.int. rewrite strip_no_space.
  2: { eapply Forall_impl; [exact Hd |]. intros c. apply ascii_digit_not_space. }
  destruct s as [|c s]; [congruence |].
  replace (forallb Str.is_decimal_char (c :: s)) with true.
  2: { symmetry. apply forallb_Forall_true.
       eapply Forall_impl; [exact Hd |]. intros x Hx. apply ascii_digit_is_decimal, Hx. }
  f_equal. generalize 0. clear Hne. induction Hd as [|x l Hx _ IH]; intros acc.
  - reflexivity.
  - simpl. rewrite (ascii_digit_value x Hx). apply IH.
Qed.

Section Regex.

Context {R : Type}.
Variables (k : str -> str -> option R) (r : R) (rest : str).

Lemma match_day_ok (c1 c2 : Z) :
  is_ascii_digit c1 -> is_ascii_digit c2 ->
  1 <= 10 * (c1 - 48) + (c2 - 48) <= 31 ->
  k [c1; c2] rest = Some r ->
  datetime.match_group datetime.RE_d (c1 :: c2 :: rest) k = Some r.
Proof.
  intros H1 H2 Hr Hk.
  digits c1; try (exfalso; unfold is_ascii_digit in *; lia);
    digits c2; try (exfalso; lia);
    vm_compute; vm_compute in Hk; rewrite Hk; reflexivity.
Qed.

Lemma match_month_ok (c1 c2 : Z) :
  is_ascii_digit c1 -> is_ascii_digit c2 ->
  1 <= 10 * (c1 - 48) + (c2 - 48) <= 12 ->
  k [c1; c2] rest = Some r ->
  datetime.match_group datetime.RE_m (c1 :: c2 :: rest) k = Some r.
Proof.
  intros H1 H2 Hr Hk.
  digits c1; try (exfalso; unfold is_ascii_digit in *; lia);
    digits c2; try (exfalso; lia);
    vm_compute; vm_compute in Hk; rewrite Hk; reflexivity.
Qed.

Lemma match_year_ok (c1 c2 c3 c4 : Z) :
  is_ascii_digit c1 -> is_ascii_digit c2 -> is_ascii_digit c3 -> is_ascii_digit c4 ->
  k [c1; c2; c3; c4] rest = Some r ->
  datetime.match_group datetime.RE_Y (c1 :: c2 :: c3 :: c4 :: rest) k = Some r.
Proof.
  intros H1 H2 H3 H4 Hk.
  unfold datetime.RE_Y.
  cbn [datetime.match_group datetime.match_seq datetime.atom_match].
  rewrite !ascii_digit_is_decimal by assumption. rewrite Hk. reflexivity.
Qed.

Lemma match_dot_ok :
  k [46] rest = Some r ->
  datetime.match_group datetime.RE_dot (46 :: rest) k = Some r.
Proof.
  intros Hk. unfold datetime.RE_dot.
  cbn [datetime.match_group datetime.match_seq datetime.atom_match].
  rewrite Z.eqb_refl, Hk. reflexivity.
Qed.

End Regex.

Lemma zfill_two_digits (n : Z) :
  0 <= n <= 99 -> datetime.zfill 2 (Str.of_nat (Z.to_nat n)) = two_digits n.
Proof.
  intros Hn.
  assert (T : forallb (fun i => str_eqb (datetime.zfill 2 (Str.of_nat i))
                                  (two_digits (Z.of_nat i))) (seq 0 100) = true)
    by (vm_compute; reflexivity).
  rewrite forallb_forall in T. specialize (T (Z.to_nat n)).
  rewrite Z2Nat.id in T by lia. apply str_eqb_eq, T, in_seq. lia.
Qed.

Lemma of_nat_four_digits (n : Z) :
  1000 <= n <= 9999 -> Str.of_nat (Z.to_nat n) = four_digits n.
Proof.
  intros Hn.
  assert (T : forallb (fun i => str_eqb (Str.of_nat i) (four_digits (Z.of_nat i)))
                (seq (10 * 100) (90 * 100)) = true)
    by (vm_compute; reflexivity).
  rewrite forallb_forall in T. specialize (T (Z.to_nat n)).
  rewrite Z2Nat.id in T by lia. apply str_eqb_eq, T, in_seq. lia.
Qed.

Lemma two_digits_of (c1 c2 : Z) :
  is_ascii_digit c1 -> is_ascii_digit c2 ->
  two_digits (10 * (c1 - 48) + (c2 - 48)) = [c1; c2].
Proof.
  unfold is_ascii_digit, two_digits. intros H1 H2.
  f_equal; [| f_equal]; Z.div_mod_to_equations; lia.
Qed.

Lemma four_digits_of (c1 c2 c3 c4 : Z) :
  is_ascii_digit c1 -> is_ascii_digit c2 -> is_ascii_digit c3 -> is_ascii_digit c4 ->
  four_digits (1000 * (c1 - 48) + 100 * (c2 - 48) + 10 * (c3 - 48) + (c4 - 48))
  = [c1; c2; c3; c4].
Proof.
  unfold is_ascii_digit, four_digits. intros H1 H2 H3 H4.
  f_equal; [| f_equal; [| f_equal; [| f_equal]]]; Z.div_mod_to_equations; lia.
Qed.

Lemma strptime_DDMMYYYY (s : str) (dt : datetime.date) :
  DDMMYYYY s dt -> datetime.valid dt -> datetime.strptime_dmY s = Some dt.
Proof.
  intros H V. destruct H as [d1 d2 m1 m2 y1 y2 y3 y4 Hd].
  repeat match goal with
         | H : Forall _ (_ :: _) |- _ =>
             let Hx := fresh "D" in
             apply Forall_cons_1 in H; destruct H as [Hx H]
         end.
  pose proof V as (Vy & Vm & Vd). simpl in Vy, Vm, Vd.
  match type of Vd with
  | _ <= _ <= datetime._days_in_month ?y ?m =>
      pose proof (days_in_month_bounds y m Vm) as Hdim
  end.
  unfold datetime.strptime_dmY.
  assert (M : datetime.regex_match_dmY [d1; d2; 46; m1; m2; 46; y1; y2; y3; y4]
              = Some ([d1; d2], [m1; m2], [y1; y2; y3; y4], [])).
  { unfold datetime.regex_match_dmY.
    apply match_day_ok; [assumption | assumption | lia |].
    apply match_dot_ok.
    apply match_month_ok; [assumption | assumption | lia |].
    apply match_dot_ok.
    apply match_year_ok; try assumption. reflexivity. }
  rewrite M.
  rewrite !int_ascii_digits
    by first [discriminate | repeat (constructor; [assumption |]); constructor].
  cbn [fold_left].
  match goal with
  | |- context [datetime.date_new ?y ?m ?d] =>
      replace y with (datetime.year
        (datetime.mkdate
           (1000 * (y1 - 48) + 100 * (y2 - 48) + 10 * (y3 - 48) + (y4 - 48))
           (10 * (m1 - 48) + (m2 - 48)) (10 * (d1 - 48) + (d2 - 48))))
        by (simpl; lia);
      replace m with (10 * (m1 - 48) + (m2 - 48)) by lia;
      replace d with (10 * (d1 - 48) + (d2 - 48)) by lia
  end.
  simpl datetime.year. rewrite date_new_valid by exact V. reflexivity.
Qed.

Lemma strftime_DDMMYYYY (s : str) (dt : datetime.date) :
  DDMMYYYY s dt -> datetime.valid dt -> 1000 <= datetime.year dt ->
  datetime.strftime_dmY dt = s.
Proof.
  intros H V. destruct H as [d1 d2 m1 m2 y1 y2 y3 y4 Hd].
  repeat match goal with
         | H : Forall _ (_ :: _) |- _ =>
             let Hx := fresh "D" in
             apply Forall_cons_1 in H; destruct H as [Hx H]
         end.
  pose proof V as (Vy & Vm & Vd). simpl in Vy, Vm, Vd.
  match type of Vd with
  | _ <= _ <= datetime._days_in_month ?y ?m =>
      pose proof (days_in_month_bounds y m Vm) as Hdim
  end.
  unfold datetime.MINYEAR, datetime.MAXYEAR in Vy.
  unfold datetime.strftime_dmY. simpl datetime.day. simpl datetime.month.
  simpl datetime.year. intros Hy.
  rewrite !zfill_two_digits by lia. rewrite of_nat_four_digits by lia.
  rewrite !two_digits_of, four_digits_of by assumption. reflexivity.
Qed.

(** C8, as the code has it: a string DD.MM.YYYY that denotes a date of the
    calendar is accepted as a birthday, with that date as its value; when the
    year is at least 1000, rendering the value with the same format, as
    [str(record)] does, gives the string back. *)
Theorem birthday_round_trip (s : str) (dt : datetime.date) :
  DDMMYYYY s dt -> datetime.valid dt ->
  Birthday.__init__ s = Ok dt /\
  (1000 <= datetime.year dt ->
   datetime.strftime_dmY dt = s /\
   forall (st : state) (self : loc) (r : record),
     heap st !! self = Some r -> birthday r = Some dt ->
     Rec.__str__ self st
     = (Ok (name r ++ u ": phones: [" ++ Str.join (u ", ") (phones r)
              ++ u "], birthday: " ++ s), st)).
Proof.
  intros H V. split.
  - unfold Birthday.__init__. rewrite (strptime_DDMMYYYY s dt H V). reflexivity.
  - intros Hy. pose proof (strftime_DDMMYYYY s dt H V Hy) as Hs.
    split; [exact Hs |].
    intros st self r Hl Hb. unfold Rec.__str__, bind.
    rewrite (deref_lookup _ _ _ Hl), Hb, Hs. reflexivity.
Qed.

(** The theorem at "29.02.2000". *)
Lemma birthday_round_trip_witness :
  Birthday.__init__ (u "29.02.2000") = Ok (datetime.mkdate 2000 2 29) /\
  datetime.strftime_dmY (datetime.mkdate 2000 2 29) = u "29.02.2000".
Proof.
  destruct (birthday_round_trip (u "29.02.2000") (datetime.mkdate 2000 2 29))
    as [Hp Hr].
  - apply (DDMMYYYY_intro 50 57 48 50 50 48 48 48).
    repeat constructor; vm_compute; discriminate.
  - repeat split; vm_compute; discriminate.
  - split; [exact Hp |]. apply Hr. vm_compute. discriminate.
Defined.

(** C8 as stated fails: "01.01.0999" denotes 1 January 999 and is accepted,
    but the date is rendered "01.01.999", the year without its leading
    zero. *)
Lemma birthday_round_trip_fails_below_1000 :
  DDMMYYYY (u "01.01.0999") (datetime.mkdate 999 1 1) /\
  datetime.valid (datetime.mkdate 999 1 1) /\
  Birthday.__init__ (u "01.01.0999") = Ok (datetime.mkdate 999 1 1) /\
  datetime.strftime_dmY (datetime.mkdate 999 1 1) = u "01.01.999" /\
  datetime.strftime_dmY (datetime.mkdate 999 1 1) <> u "01.01.0999".
Proof.
  split; [| split; [| split; [| split]]].
  - apply (DDMMYYYY_intro 48 49 48 49 48 57 57 57).
    repeat constructor; vm_compute; discriminate.
  - repeat split; vm_compute; discriminate.
  - reflexivity.
  - reflexivity.
  - intros H. vm_compute in H. discriminate H.
Qed.

(** * Further properties of the code *)

(** ** The day count *)

Lemma same_month_day_next_year (y m d : Z) :
  datetime.valid (datetime.mkdate y m d) ->
  datetime.valid (datetime.mkdate (y + 1) m d) ->
  datetime.toordinal (datetime.mkdate (y + 1) m d)
  - datetime.toordinal (datetime.mkdate y m d) <= 366.
Proof.
  unfold datetime.valid, datetime.toordinal, datetime._ymd2ord; simpl.
  intros (_ & Hm & _) _. rewrite days_before_year_succ.
  unfold datetime._days_before_month.
  assert (L : forall z, datetime._is_leap z = true -> datetime._is_leap (z + 1) = false).
  { intros z Hz. apply is_leap_mod in Hz. apply not_true_iff_false.
    rewrite is_leap_mod. Z.div_mod_to_equations. lia. }
  destruct (datetime._is_leap y) eqn:Ly.
  - rewrite (L y Ly). destruct (2 <? m); simpl; lia.
  - destruct (datetime._is_leap (y + 1)); destruct (2 <? m); simpl; lia.
Qed.

Lemma next_birthday_within_a_year (today b nb : datetime.date) :
  datetime.valid today -> Rec.next_birthday today b = Ok nb ->
  datetime.sub_days nb today <= 365.
Proof.
  intros Vt. unfold Rec.next_birthday, datetime.replace_year.
  destruct (datetime.date_new (datetime.year today) _ _) as [d1 |] eqn:R1;
    [| discriminate].
  apply date_new_ok in R1. destruct R1 as [-> V1].
  destruct (datetime.lt _ today) eqn:L; simpl.
  - intros H. apply date_new_ok in H. destruct H as [-> V2].
    pose proof (same_month_day_next_year _ _ _ V1 V2) as Hy.
    pose proof (toordinal_lt _ _ V1 Vt L) as Hl.
    unfold datetime.sub_days. lia.
  - intros [= <-]. unfold datetime.sub_days.
    pose proof (day_of_year_bounds _ V1) as B1.
    pose proof (day_of_year_bounds _ Vt) as Bt.
    unfold datetime.toordinal, datetime._ymd2ord. simpl in *.
    destruct (datetime._is_leap (datetime.year today)); lia.
Qed.

(** X1: whatever the birthday and the day, a day count that is returned lies
    between 0 and 365: the next birthday is never a full leap year away. *)
Theorem days_to_birthday_range (st st' : state) (self : loc) (r : record)
    (today : datetime.date) (days : Z) :
  heap st !! self = Some r -> datetime.valid today ->
  Rec.days_to_birthday today self st = (Ok (Some days), st') ->
  0 <= days <= 365.
Proof.
  intros Hl Vt. rewrite (days_to_birthday_run _ _ _ _ Hl).
  destruct (birthday r) as [b |]; [| discriminate].
  destruct (Rec.next_birthday today b) as [nb | e] eqn:Hn; [| discriminate].
  intros [= <- _].
  pose proof (next_birthday_same_day _ _ _ Vt Hn) as [Hpos _].
  pose proof (next_birthday_within_a_year _ _ _ Vt Hn). lia.
Qed.

(** The theorem for a birthday on 1 March read on 2 March 2023: 365 days. *)
Lemma days_to_birthday_range_witness : 0 <= 365 <= 365.
Proof.
  apply (days_to_birthday_range
           (mkState [mkRecord (u "eve") [] (Some (datetime.mkdate 1990 3 1))] [])
           (mkState [mkRecord (u "eve") [] (Some (datetime.mkdate 1990 3 1))] [])
           0%nat (mkRecord (u "eve") [] (Some (datetime.mkdate 1990 3 1)))
           (datetime.mkdate 2023 3 2) 365).
  - reflexivity.
  - repeat split; vm_compute; discriminate.
  - reflexivity.
Defined.

(** ** The list of upcoming birthdays *)

Lemma upcoming_loop_raises (today : datetime.date) (st : state) (recs : list loc)
    (acc : list (str * str)) :
  Exists (fun l => ~ next_birthday_defined today (heap st !!! l)) recs ->
  exists e, AddressBook.upcoming_loop today recs acc st = (Raise e, st).
Proof.
  revert acc. induction recs as [|l recs IH]; intros acc H.
  - inversion H.
  - simpl. unfold bind at 1. unfold deref at 1.
    destruct (birthday (heap st !!! l)) as [b |] eqn:Hb.
    + unfold bind, lift. destruct (Rec.next_birthday today b) as [nb | e] eqn:Hn.
      * assert (Hrest : Exists (fun l0 => ~ next_birthday_defined today (heap st !!! l0)) recs).
        { inversion H as [? ? Hbad | ? ? Hr]; subst; [| exact Hr].
          exfalso. apply Hbad. intros b' Hb'. rewrite Hb in Hb'.
          injection Hb' as <-. eauto. }
        destruct (_ && _); apply IH, Hrest.
      * eauto.
    + apply IH. inversion H as [? ? Hbad | ? ? Hr]; subst; [| exact Hr].
      exfalso. apply Hbad. intros b' Hb'. rewrite Hb in Hb'. discriminate Hb'.
Qed.

(** X2: [get_upcoming_birthdays] never changes the book. When the next
    birthday of every stored record can be computed it returns, in the order
    of the book, the name and next date of exactly the records with a
    birthday at most 7 days ahead; when it cannot be computed for some stored
    record, the whole call raises. *)
Theorem upcoming_birthdays_exact_or_raises (today : datetime.date) (st : state) :
  (Forall (fun l => next_birthday_defined today (heap st !!! l)) (dict.values (data st)) ->
   AddressBook.get_upcoming_birthdays today st = (Ok (upcoming_spec today st), st)) /\
  (Exists (fun l => ~ next_birthday_defined today (heap st !!! l)) (dict.values (data st)) ->
   exists e, AddressBook.get_upcoming_birthdays today st = (Raise e, st)).
Proof.
  split; intros H; unfold AddressBook.get_upcoming_birthdays, bind, get_data.
  - rewrite upcoming_loop_defined by assumption. reflexivity.
  - apply upcoming_loop_raises, H.
Qed.

(** The theorem at the book with birthdays on 13 and 18 June, read on 10
    June 2024. *)
Lemma upcoming_birthdays_exact_or_raises_witness :
  AddressBook.get_upcoming_birthdays (datetime.mkdate 2024 6 10) book_june
  = (Ok [(u "ann", u "13.06.2024")], book_june).
Proof.
  apply (proj1 (upcoming_birthdays_exact_or_raises (datetime.mkdate 2024 6 10) book_june)).
  repeat constructor; intros b [= <-]; eexists; reflexivity.
Defined.

(** ** Removing a phone *)

(** X3: [remove_phone] never fails; it takes out every occurrence of the
    phone and keeps the other phones in their order, so the phone is gone
    afterwards, and when the record did not have it nothing changes. *)
Theorem remove_phone_all (st : state) (self : loc) (r : record) (phone : str) :
  heap st !! self = Some r ->
  exists st',
    Rec.remove_phone self phone st = (Ok tt, st') /\
    data st' = data st /\
    heap st'
    = <[self := mkRecord (name r) (filter (fun p => p <> phone) (phones r)) (birthday r)]>
        (heap st) /\
    (forall q, q ∈ filter (fun p => p <> phone) (phones r) <-> q ∈ phones r /\ q <> phone) /\
    (phone ∉ phones r -> st' = st).
Proof.
  intros Hl. eexists. split; [reflexivity |]. simpl.
  split; [reflexivity |]. split.
  { exact (alter_as_insert
             (fun r0 => mkRecord (name r0) (filter (fun p => p <> phone) (phones r0))
                          (birthday r0)) _ _ _ Hl). }
  split.
  - intros q. rewrite list_elem_of_filter. tauto.
  - intros Hout. rewrite (alter_as_insert _ _ _ _ Hl).
    assert (E : filter (fun p => p <> phone) (phones r) = phones r).
    { clear Hl. induction (phones r) as [|p ps IH]; [reflexivity |].
      apply not_elem_of_cons in Hout. destruct Hout as [Hne Hps].
      rewrite filter_cons_True by congruence. f_equal. apply IH, Hps. }
    rewrite E. destruct r as [n ps b]. simpl.
    rewrite list_insert_id by assumption. destruct st; reflexivity.
Qed.

(** The theorem at the phones ["1111111111"; "2222222222"; "1111111111"]. *)
Lemma remove_phone_all_witness :
  exists st',
    Rec.remove_phone 0%nat (u "1111111111")
      (mkState [mkRecord (u "dan") [u "1111111111"; u "2222222222"; u "1111111111"] None] [])
    = (Ok tt, st') /\
    heap st' = [mkRecord (u "dan") [u "2222222222"] None].
Proof.
  destruct (remove_phone_all
              (mkState [mkRecord (u "dan")
                          [u "1111111111"; u "2222222222"; u "1111111111"] None] [])
              0%nat
              (mkRecord (u "dan") [u "1111111111"; u "2222222222"; u "1111111111"] None)
              (u "1111111111") eq_refl) as (st' & Hrun & _ & Hheap & _).
  exists st'. split; [exact Hrun | exact Hheap].
Defined.

(** ** Order and removal in the book *)

Lemma dict_contains_get {V} (k : str) (d : list (str * V)) :
  dict.contains k d = true <-> dict.get k d <> None.
Proof.
  unfold dict.contains. destruct (dict.get k d); split; congruence.
Qed.

Lemma dict_keys_set {V} (k : str) (v : V) (d : list (str * V)) :
  dict.keys (dict.set k v d)
  = if dict.contains k d then dict.keys d else dict.keys d ++ [k].
Proof.
  unfold dict.contains. induction d as [|[k' v'] d IH]; simpl; [reflexivity |].
  destruct (decide (k' = k)) as [E | N]; simpl.
  - subst. reflexivity.
  - rewrite IH. destruct (dict.get k d); reflexivity.
Qed.

Lemma dict_get_del_ne {V} (k k0 : str) (d : list (str * V)) :
  k0 <> k -> dict.get k0 (dict.del k d) = dict.get k0 d.
Proof.
  intros Hne. induction d as [|[k' v'] d IH]; simpl; [reflexivity |].
  destruct (decide (k' = k)) as [E | N]; simpl.
  - subst. rewrite decide_False by congruence. reflexivity.
  - rewrite IH. reflexivity.
Qed.

Lemma dict_get_del_eq {V} (k : str) (d : list (str * V)) :
  (entries_under k d <= 1)%nat -> dict.get k (dict.del k d) = None.
Proof.
  induction d as [|[k' v'] d IH]; simpl; [reflexivity |].
  rewrite entries_under_cons. destruct (decide (k' = k)) as [E | N]; simpl.
  - intros H. destruct (dict.get k d) eqn:G; [| reflexivity].
    exfalso. assert (entries_under k d <> 0)%nat; [| lia].
    intros Z0. clear -G Z0. induction d as [|[k1 v1] d IH]; [discriminate |].
    rewrite entries_under_cons in Z0. simpl in G.
    destruct (decide (k1 = k)); [lia |]. apply IH; [exact G | lia].
  - rewrite decide_False by assumption. exact IH.
Qed.

Lemma dict_keys_del {V} (k : str) (d : list (str * V)) :
  (entries_under k d <= 1)%nat ->
  dict.keys (dict.del k d) = filter (fun k' => k' <> k) (dict.keys d).
Proof.
  induction d as [|[k' v'] d IH]; simpl; [reflexivity |].
  rewrite entries_under_cons. destruct (decide (k' = k)) as [E | N]; intros H.
  - subst. rewrite filter_cons_False by tauto.
    assert (Z0 : entries_under k d = 0%nat) by lia. clear -Z0.
    induction d as [|[k1 v1] d IH]; [reflexivity |].
    rewrite entries_under_cons in Z0. simpl.
    destruct (decide (k1 = k)); [lia |].
    rewrite filter_cons_True by assumption. f_equal. apply IH. lia.
  - simpl. rewrite filter_cons_True by assumption. f_equal. apply IH. lia.
Qed.

(** X4: overwriting a name with [add_record] keeps the place the name has in
    the order of the book, and a new name goes last; the records are
    otherwise untouched. *)
Theorem add_record_keeps_order (st : state) (rec : loc) (r : record) :
  heap st !! rec = Some r ->
  exists st',
    AddressBook.add_record rec st = (Ok tt, st') /\ heap st' = heap st /\
    dict.keys (data st')
    = if dict.contains (name r) (data st)
      then dict.keys (data st) else dict.keys (data st) ++ [name r].
Proof.
  intros Hl. eexists. rewrite add_record_run.
  rewrite (list_lookup_total_correct _ _ _ Hl). simpl.
  split; [reflexivity |]. split; [reflexivity |]. apply dict_keys_set.
Qed.

(** The theorem at a second record named "ann" added to the book of June. *)
Lemma add_record_keeps_order_witness :
  exists st',
    AddressBook.add_record 2%nat
      (mkState (heap book_june ++ [mkRecord (u "ann") [] None]) (data book_june))
    = (Ok tt, st') /\
    heap st' = heap book_june ++ [mkRecord (u "ann") [] None] /\
    dict.keys (data st') = [u "ann"; u "ben"].
Proof.
  apply (add_record_keeps_order
           (mkState (heap book_june ++ [mkRecord (u "ann") [] None]) (data book_june))
           2%nat (mkRecord (u "ann") [] None)).
  reflexivity.
Defined.

(** X5: in a book with at most one entry per name, [delete] never fails and
    removes the name: [find] no longer has it, every other name is found as
    before, the remaining names keep their order, and the records themselves
    stay in the store. A name that is not in the book changes nothing. *)
Theorem delete_then_find (st : state) (name : str) :
  (forall k, (entries_under k (data st) <= 1)%nat) ->
  exists st',
    AddressBook.delete name st = (Ok tt, st') /\ heap st' = heap st /\
    AddressBook.find name st' = (Ok None, st') /\
    (forall k, k <> name -> AddressBook.find k st' = (Ok (dict.get k (data st)), st')) /\
    dict.keys (data st') = filter (fun k => k <> name) (dict.keys (data st)) /\
    (dict.get name (data st) = None -> st' = st).
Proof.
  intros Hone. eexists. rewrite delete_run.
  split; [reflexivity |]. simpl. split; [reflexivity |].
  unfold AddressBook.find, bind, get_data, ret. simpl.
  destruct (dict.contains name (data st)) eqn:C.
  - repeat split.
    + rewrite dict_get_del_eq by apply Hone. reflexivity.
    + intros k Hk. rewrite dict_get_del_ne by assumption. reflexivity.
    + apply dict_keys_del, Hone.
    + intros G. apply dict_contains_get in C. contradiction.
  - assert (G : dict.get name (data st) = None).
    { unfold dict.contains in C. destruct (dict.get name (data st)); [discriminate | reflexivity]. }
    repeat split.
    + rewrite G. reflexivity.
    + clear -G. unfold dict.keys.
      induction (data st) as [|[k' v'] d IH]; [reflexivity |].
      simpl in *. destruct (decide (k' = name)); [discriminate |].
      rewrite filter_cons_True by assumption. f_equal. apply IH, G.
    + intros _. destruct st; reflexivity.
Qed.

(** The theorem at the book of June, deleting "ann". *)
Lemma delete_then_find_witness :
  exists st',
    AddressBook.delete (u "ann") book_june = (Ok tt, st') /\
    heap st' = heap book_june /\
    AddressBook.find (u "ann") st' = (Ok None, st').
Proof.
  destruct (delete_then_find book_june (u "ann")) as (st' & H1 & H2 & H3 & _).
  - intros k. unfold entries_under, book_june. simpl.
    rewrite !filter_cons, filter_nil.
    destruct (decide _) as [E1 |]; destruct (decide _) as [E2 |]; simpl; try lia.
    exfalso. rewrite <- E2 in E1. vm_compute in E1. discriminate E1.
  - exists st'. auto.
Defined.

(** ** Splitting a command line *)

Lemma rev_not_nil {A} (l : list A) : l <> [] -> rev l <> [].
Proof.
  intros H E. apply (f_equal (@length A)) in E. rewrite length_rev in E.
  destruct l; [congruence | discriminate E].
Qed.

Lemma split_aux_tokens (cur s : str) :
  Forall (fun c => Str.is_space_char c = false) cur ->
  Forall is_token (Str.split_aux cur s).
Proof.
  revert cur. induction s as [|c s IH]; intros cur Hc; simpl.
  - destruct cur as [|x cur]; constructor; [| constructor].
    split; [apply rev_not_nil; discriminate | apply Forall_rev, Hc].
  - destruct (Str.is_space_char c) eqn:Sc.
    + destruct cur as [|x cur]; [apply IH; constructor |].
      constructor; [| apply IH; constructor].
      split; [apply rev_not_nil; discriminate | apply Forall_rev, Hc].
    + apply IH. constructor; assumption.
Qed.

Lemma split_aux_lstrip (s : str) :
  Str.split_aux [] (Str.lstrip s) = Str.split_aux [] s.
Proof.
  induction s as [|c s IH]; [reflexivity |].
  simpl. destruct (Str.is_space_char c) eqn:Sc; [exact IH |].
  simpl. rewrite Sc. reflexivity.
Qed.

Lemma split_aux_spaces (cur w : str) :
  Forall (fun c => Str.is_space_char c = true) w ->
  Str.split_aux cur w = Str.split_aux cur [].
Proof.
  intros H. revert cur. induction H as [|c w Hc _ IH]; intros cur; [reflexivity |].
  simpl. rewrite Hc. destruct cur; rewrite IH; reflexivity.
Qed.

Lemma split_aux_app_spaces (cur s w : str) :
  Forall (fun c => Str.is_space_char c = true) w ->
  Str.split_aux cur (s ++ w) = Str.split_aux cur s.
Proof.
  intros H. revert cur. induction s as [|c s IH]; intros cur.
  - apply split_aux_spaces, H.
  - simpl. destruct (Str.is_space_char c); [destruct cur |]; rewrite ?IH; reflexivity.
Qed.

Lemma lstrip_decompose (s : str) :
  exists w, Forall (fun c => Str.is_space_char c = true) w /\ s = w ++ Str.lstrip s.
Proof.
  induction s as [|c s (w & Hw & E)].
  - exists []. split; [constructor | reflexivity].
  - simpl. destruct (Str.is_space_char c) eqn:Sc.
    + exists (c :: w). split; [constructor; assumption |]. simpl. f_equal. exact E.
    + exists []. split; [constructor | reflexivity].
Qed.

(** [strip] before [split] changes nothing. *)
Lemma split_strip (s : str) : Str.split (Str.strip s) = Str.split s.
Proof.
  unfold Str.split, Str.strip. rewrite <- (split_aux_lstrip s).
  destruct (lstrip_decompose (rev (Str.lstrip s))) as (w & Hw & E).
  apply (f_equal (@rev Z)) in E. rewrite rev_involutive, rev_app_distr in E.
  rewrite E at 2. symmetry. apply split_aux_app_spaces, Forall_rev, Hw.
Qed.

Lemma split_aux_word (cur t rest : str) :
  Forall (fun c => Str.is_space_char c = false) t ->
  Str.split_aux cur (t ++ rest) = Str.split_aux (rev t ++ cur) rest.
Proof.
  intros H. revert cur. induction H as [|c t Hc _ IH]; intros cur; [reflexivity |].
  simpl. rewrite Hc, IH, <- app_assoc. reflexivity.
Qed.

Lemma split_join (ts : list str) :
  Forall is_token ts -> Str.split (Str.join [32] ts) = ts.
Proof.
  unfold Str.split. induction 1 as [|t ts [Hne Ht] Hts IH]; [reflexivity |].
  assert (R : rev (rev t ++ []) = t) by (rewrite app_nil_r; apply rev_involutive).
  assert (N : rev t ++ [] <> []) by (rewrite app_nil_r; apply rev_not_nil, Hne).
  destruct ts as [|t' ts].
  - change (Str.join [32] [t]) with t.
    rewrite <- (app_nil_r t) at 1. rewrite split_aux_word by assumption.
    change (Str.split_aux (rev t ++ []) [])
      with (match rev t ++ [] with
            | [] => []
            | _ => [rev (rev t ++ [])]
            end).
    destruct (rev t ++ []); [congruence |]. rewrite R. reflexivity.
  - change (Str.join [32] (t :: t' :: ts)) with (t ++ 32 :: Str.join [32] (t' :: ts)).
    rewrite split_aux_word by assumption.
    change (Str.split_aux (rev t ++ []) (32 :: Str.join [32] (t' :: ts)))
      with (match rev t ++ [] with
            | [] => Str.split_aux [] (Str.join [32] (t' :: ts))
            | _ => rev (rev t ++ []) :: Str.split_aux [] (Str.join [32] (t' :: ts))
            end).
    destruct (rev t ++ []); [congruence |]. rewrite R, IH. reflexivity.
Qed.

(** X6: [parse_input] yields words only: every argument is non-empty and
    free of white space. A line with no word gives the empty command and no
    argument; otherwise the command is the first word in lower case and the
    arguments are the other words of the line, in order (the [strip] before
    [split] changes nothing). *)
Theorem parse_input_words (lower : str -> str) (user_input cmd : str) (args : list str) :
  parse_input lower user_input = (cmd, args) ->
  Forall is_token args /\
  ((Str.split user_input = [] /\ cmd = [] /\ args = []) \/
   (exists c, is_token c /\ cmd = lower c /\ Str.split user_input = c :: args)).
Proof.
  unfold parse_input. rewrite split_strip.
  pose proof (split_aux_tokens [] user_input ltac:(constructor)) as T.
  fold (Str.split user_input) in T.
  destruct (Str.split user_input) as [|c rest].
  - intros [= <- <-]. split; [constructor | left; auto].
  - intros [= <- <-]. inversion T as [|? ? Hc Hr]; subst.
    split; [exact Hr | right]. exists c. auto.
Qed.

(** The theorem at the line "  ADD  bob 123 ", with a [lower] that is the
    identity. *)
Lemma parse_input_words_witness :
  Forall is_token [u "bob"; u "123"] /\
  ((Str.split (u "  ADD  bob 123 ") = [] /\ u "ADD" = [] /\ [u "bob"; u "123"] = []) \/
   (exists c, is_token c /\ u "ADD" = c /\
              Str.split (u "  ADD  bob 123 ") = [c; u "bob"; u "123"])).
Proof.
  apply (parse_input_words (fun s => s) (u "  ADD  bob 123 ") (u "ADD")
           [u "bob"; u "123"]).
  reflexivity.
Defined.

(** X7: words joined by single spaces are parsed back: the first word, in
    lower case, is the command and the others are the arguments. *)
Theorem parse_input_join (lower : str -> str) (c : str) (args : list str) :
  Forall is_token (c :: args) ->
  parse_input lower (Str.join [32] (c :: args)) = (lower c, args).
Proof.
  intros H. unfold parse_input. rewrite split_strip, split_join by assumption.
  reflexivity.
Qed.

(** The theorem at the words "change", "bob", "1111111111", "2222222222". *)
Lemma parse_input_join_witness :
  parse_input (fun s => s)
    (Str.join [32] [u "change"; u "bob"; u "1111111111"; u "2222222222"])
  = (u "change", [u "bob"; u "1111111111"; u "2222222222"]).
Proof.
  apply (parse_input_join (fun s => s) (u "change")
           [u "bob"; u "1111111111"; u "2222222222"]).
  repeat constructor; try discriminate; reflexivity.
Defined.

(** ** Commands that only read *)

Lemma read_only_ret {A} (a : A) : read_only (ret a).
Proof. intros st o st' [= _ <-]. reflexivity. Qed.

Lemma read_only_raise {A} (e : exn) : read_only (@raise A e).
Proof. intros st o st' [= _ <-]. reflexivity. Qed.

Lemma read_only_lift {A} (x : outcome A) : read_only (lift x).
Proof. intros st o st' [= _ <-]. reflexivity. Qed.

Lemma read_only_deref (l : loc) : read_only (deref l).
Proof. intros st o st' [= _ <-]. reflexivity. Qed.

Lemma read_only_get_data : read_only get_data.
Proof. intros st o st' [= _ <-]. reflexivity. Qed.

Lemma read_only_bind {A B} (c : M A) (k : A -> M B) :
  read_only c -> (forall a, read_only (k a)) -> read_only (bind c k).
Proof.
  intros Hc Hk st o st'. unfold bind.
  destruct (c st) as [[a | e] st0] eqn:E; pose proof (Hc _ _ _ E) as ->.
  - apply Hk.
  - intros [= _ <-]. reflexivity.
Qed.

Lemma read_only_input_error (func : M str) : read_only func -> read_only (input_error func).
Proof.
  intros H st o st'. unfold input_error.
  destruct (func st) as [[s | e] st0] eqn:E; pose proof (H _ _ _ E) as ->.
  - intros [= _ <-]. reflexivity.
  - destruct e; intros [= _ <-]; reflexivity.
Qed.

Ltac read_only_step :=
  first [ apply read_only_input_error
        | apply read_only_bind; [| intros ?]
        | apply read_only_ret | apply read_only_raise | apply read_only_lift
        | apply read_only_deref | apply read_only_get_data ].

Lemma read_only_upcoming_loop (today : datetime.date) (recs : list loc)
    (acc : list (str * str)) :
  read_only (AddressBook.upcoming_loop today recs acc).
Proof.
  revert acc. induction recs as [|l recs IH]; intros acc; simpl.
  - read_only_step.
  - read_only_step; [read_only_step |].
    destruct (birthday a); [| apply IH].
    read_only_step; [read_only_step |]. destruct (_ && _); apply IH.
Qed.

Lemma read_only_str_all (recs : list loc) : read_only (str_all recs).
Proof.
  induction recs as [|l recs IH]; simpl.
  - read_only_step.
  - read_only_step; [unfold Rec.__str__; repeat read_only_step |].
    read_only_step; [apply IH | read_only_step].
Qed.

(** The handlers of [phone], [all], [show-birthday] and [birthdays] leave
    the store and the book as they are. *)
Lemma query_handlers_read_only (today : datetime.date) (args : list str) :
  read_only (show_phone args) /\ read_only show_all /\
  read_only (show_birthday args) /\ read_only (birthdays today args).
Proof.
  repeat split; read_only_step.
  - destruct args as [|name rest]; [read_only_step |].
    read_only_step; [unfold AddressBook.find; repeat read_only_step |].
    destruct a; repeat read_only_step.
  - read_only_step; [read_only_step |].
    destruct a; [read_only_step |].
    read_only_step; [apply read_only_str_all | read_only_step].
  - destruct args as [|name rest]; [read_only_step |].
    read_only_step; [unfold AddressBook.find; repeat read_only_step |].
    destruct a; [| read_only_step].
    read_only_step; [read_only_step |]. destruct (birthday a); read_only_step.
  - read_only_step.
    + unfold AddressBook.get_upcoming_birthdays.
      read_only_step; [read_only_step | apply read_only_upcoming_loop].
    + destruct a; read_only_step.
Qed.

(** ** What the commands that write do *)

Lemma add_contact_run (n phone : str) (rest : list str) (st : state) :
  add_contact (n :: phone :: rest) st
  = let found := dict.get n (data st) in
    let l := match found with Some l => l | None => length (heap st) end in
    let msg := match found with
               | Some _ => u "Contact updated."
               | None => u "Contact added."
               end in
    let st1 := match found with
               | Some _ => st
               | None => mkState (heap st ++ [mkRecord n [] None])
                                 (data st ++ [(n, length (heap st))])
               end in
    match phone with
    | [] => (Ok msg, st1)
    | _ =>
        if Phone._validate phone
        then (Ok msg,
              mkState (alter (fun r => mkRecord (name r) (phones r ++ [phone]) (birthday r))
                         l (heap st1))
                      (data st1))
        else (Ok (u "Error: " ++ Phone.INVALID), st1)
    end.
Proof.
  unfold add_contact, input_error, bind, AddressBook.find, get_data, ret.
  simpl. destruct (dict.get n (data st)) as [l |] eqn:G; simpl.
  - destruct phone as [|c phone]; [reflexivity |].
    unfold Rec.add_phone, bind, lift, Phone.__init__.
    destruct (Phone._validate (c :: phone)); reflexivity.
  - unfold AddressBook.add_record, bind, deref, get_data, set_data. simpl.
    rewrite list_lookup_total_middle by reflexivity. simpl.
    rewrite dict_set_absent by assumption.
    destruct phone as [|c phone]; [reflexivity |].
    unfold Rec.add_phone, bind, lift, Phone.__init__.
    destruct (Phone._validate (c :: phone)); reflexivity.
Qed.

Lemma add_birthday_run (n bday : str) (st : state) :
  add_birthday [n; bday] st
  = let found := dict.get n (data st) in
    let l := match found with Some l => l | None => length (heap st) end in
    let st1 := match found with
               | Some _ => st
               | None => mkState (heap st ++ [mkRecord n [] None])
                                 (data st ++ [(n, length (heap st))])
               end in
    match datetime.strptime_dmY bday with
    | Some d =>
        (Ok (u "Birthday added for " ++ n),
         mkState (alter (fun r => mkRecord (name r) (phones r) (Some d)) l (heap st1))
                 (data st1))
    | None => (Ok (u "Error: " ++ Birthday.INVALID), st1)
    end.
Proof.
  unfold add_birthday, input_error, bind, AddressBook.find, get_data, ret.
  simpl. destruct (dict.get n (data st)) as [l |] eqn:G; simpl.
  - unfold Rec.add_birthday, bind, lift, Birthday.__init__.
    destruct (datetime.strptime_dmY bday); reflexivity.
  - unfold AddressBook.add_record, bind, deref, get_data, set_data. simpl.
    rewrite list_lookup_total_middle by reflexivity. simpl.
    rewrite dict_set_absent by assumption.
    unfold Rec.add_birthday, bind, lift, Birthday.__init__.
    destruct (datetime.strptime_dmY bday); reflexivity.
Qed.

Lemma change_contact_run (n old_phone new_phone : str) (rest : list str) (st : state) :
  change_contact (n :: old_phone :: new_phone :: rest) st
  = match dict.get n (data st) with
    | None => (Ok CONTACT_NOT_FOUND_ADD, st)
    | Some l =>
        if decide (old_phone ∈ phones (heap st !!! l))
        then if Phone._validate new_phone
             then (Ok (u "Phone updated."), snd (Rec.edit_phone l old_phone new_phone st))
             else (Ok (u "Error: " ++ Phone.INVALID), st)
        else (Ok (u "Error: Phone " ++ old_phone ++ u " not found."), st)
    end.
Proof.
  unfold change_contact, input_error, bind, AddressBook.find, get_data, ret.
  simpl. destruct (dict.get n (data st)) as [l |] eqn:G; simpl; [| reflexivity].
  destruct (decide (old_phone ∈ phones (heap st !!! l))) as [Hin | Hout].
  - destruct (Phone._validate new_phone) eqn:Hv.
    + unfold Rec.edit_phone, bind, deref.
      apply list_elem_of_split_l in Hin. destruct Hin as (pre & post & -> & Hpre).
      rewrite edit_phone_loop_found by assumption.
      unfold Phone.__init__. rewrite Hv. reflexivity.
    + rewrite edit_phone_invalid by assumption. reflexivity.
  - rewrite edit_phone_not_found by assumption. reflexivity.
Qed.

(** ** The well-formed book *)

Lemma book_ok_empty : book_ok empty_state.
Proof.
  split; [| split].
  - intros k. unfold entries_under. simpl. lia.
  - intros k l H. discriminate H.
  - constructor.
Qed.

Lemma book_ok_create (st : state) (n : str) :
  book_ok st -> dict.get n (data st) = None ->
  book_ok (mkState (heap st ++ [mkRecord n [] None])
                   (data st ++ [(n, length (heap st))])).
Proof.
  intros (Hone & Href & Hrec) Habs.
  rewrite <- (dict_set_absent (data st) n (length (heap st)) Habs).
  split; [| split]; simpl.
  - intros k. destruct (decide (k = n)) as [-> | N].
    + rewrite entries_under_set_eq. specialize (Hone n). lia.
    + rewrite entries_under_set_ne by assumption. apply Hone.
  - intros k l. destruct (decide (k = n)) as [-> | N].
    + rewrite dict_get_set_eq. intros [= <-].
      exists (mkRecord n [] None). split; [| reflexivity].
      apply list_lookup_middle. reflexivity.
    + rewrite dict_get_set_ne by assumption. intros G.
      destruct (Href k l G) as (r & Hl & Hn). exists r. split; [| exact Hn].
      apply lookup_app_l_Some, Hl.
  - apply Forall_app. split; [exact Hrec |].
    constructor; [| constructor]. split; [constructor | discriminate].
Qed.

Lemma book_ok_alter (st : state) (l : loc) (f : record -> record) :
  book_ok st ->
  (forall r, name (f r) = name r) -> (forall r, record_ok r -> record_ok (f r)) ->
  book_ok (mkState (alter f l (heap st)) (data st)).
Proof.
  intros (Hone & Href & Hrec) Hname Hok. split; [| split]; simpl.
  - exact Hone.
  - intros k l' G. destruct (Href k l' G) as (r & Hl & Hn).
    rewrite list_lookup_alter. destruct (decide (l = l')) as [-> | N].
    + rewrite Hl. exists (f r). split; [reflexivity |]. rewrite Hname. exact Hn.
    + exists r. auto.
  - apply Forall_alter; [exact Hrec |]. intros r _. apply Hok.
Qed.

(** Whatever [strptime] accepts is a date of the calendar. *)
Lemma strptime_valid (s : str) (d : datetime.date) :
  datetime.strptime_dmY s = Some d -> datetime.valid d.
Proof.
  unfold datetime.strptime_dmY.
  destruct (datetime.regex_match_dmY s) as [[[[dd mm] yy] rest] |]; [| discriminate].
  destruct rest; [| discriminate].
  destruct (Str.int yy), (Str.int mm), (Str.int dd); try discriminate.
  destruct (datetime.date_new _ _ _) as [dt |] eqn:E; [| discriminate].
  intros [= <-]. apply date_new_ok in E. apply E.
Qed.

Lemma edit_phone_book_ok (st : state) (l : loc) (old_phone new_phone : str) :
  book_ok st -> book_ok (snd (Rec.edit_phone l old_phone new_phone st)).
Proof.
  intros H.
  destruct (decide (old_phone ∈ phones (heap st !!! l))) as [Hin | Hout].
  - destruct (Phone._validate new_phone) eqn:Hv.
    + unfold Rec.edit_phone, bind, deref.
      apply list_elem_of_split_l in Hin. destruct Hin as (pre & post & -> & Hpre).
      rewrite edit_phone_loop_found by assumption.
      unfold Phone.__init__. rewrite Hv. simpl.
      apply book_ok_alter; [exact H | reflexivity |].
      intros r [Hp Hb]. split; [| exact Hb]. simpl.
      apply Forall_insert; assumption.
    + rewrite edit_phone_invalid by assumption. exact H.
  - rewrite edit_phone_not_found by assumption. exact H.
Qed.

Lemma add_contact_book_ok (args : list str) (st : state) :
  book_ok st -> book_ok (snd (add_contact args st)).
Proof.
  intros H. destruct args as [|n [|phone rest]]; [exact H | exact H |].
  rewrite add_contact_run. cbv zeta.
  assert (H1 : book_ok match dict.get n (data st) with
                       | Some _ => st
                       | None => mkState (heap st ++ [mkRecord n [] None])
                                         (data st ++ [(n, length (heap st))])
                       end).
  { destruct (dict.get n (data st)) eqn:G; [exact H | apply book_ok_create; assumption]. }
  destruct phone as [|c phone]; [exact H1 |].
  destruct (Phone._validate (c :: phone)) eqn:Hv; [| exact H1].
  simpl. apply book_ok_alter; [exact H1 | reflexivity |].
  intros r [Hp Hb]. split; [| exact Hb]. simpl.
  apply Forall_app. split; [exact Hp |]. constructor; [exact Hv | constructor].
Qed.

Lemma change_contact_book_ok (args : list str) (st : state) :
  book_ok st -> book_ok (snd (change_contact args st)).
Proof.
  intros H. destruct args as [|n [|old_phone [|new_phone rest]]];
    [exact H | exact H | exact H |].
  rewrite change_contact_run.
  destruct (dict.get n (data st)) as [l |]; [| exact H].
  destruct (decide _); [| exact H].
  destruct (Phone._validate new_phone); [| exact H].
  simpl. apply edit_phone_book_ok, H.
Qed.

Lemma add_birthday_book_ok (args : list str) (st : state) :
  book_ok st -> book_ok (snd (add_birthday args st)).
Proof.
  intros H. destruct args as [|n [|bday [|x rest]]]; [exact H | exact H | | exact H].
  rewrite add_birthday_run. cbv zeta.
  assert (H1 : book_ok match dict.get n (data st) with
                       | Some _ => st
                       | None => mkState (heap st ++ [mkRecord n [] None])
                                         (data st ++ [(n, length (heap st))])
                       end).
  { destruct (dict.get n (data st)) eqn:G; [exact H | apply book_ok_create; assumption]. }
  destruct (datetime.strptime_dmY bday) as [d |] eqn:P; [| exact H1].
  simpl. apply book_ok_alter; [exact H1 | reflexivity |].
  intros r [Hp _]. split; [exact Hp |]. simpl. intros b [= <-].
  eapply strptime_valid, P.
Qed.

(** ** One turn of the loop *)

Lemma bind_ret_true (c : M str) (st : state) :
  bind c (fun s => ret (s, true)) st
  = match c st with
    | (Ok s, st') => (Ok (s, true), st')
    | (Raise e, st') => (Raise e, st')
    end.
Proof. unfold bind, ret. destruct (c st) as [[s | e] st']; reflexivity. Qed.

(** One turn of the loop never raises: the input line, whatever it holds,
    gets one printed line. The loop goes on unless the command is [close] or
    [exit], for which "Good bye!" is printed and nothing changes. *)
Lemma step_returns (lower : str -> str) (today : datetime.date)
    (user_input : str) (st : state) :
  exists out st',
    step lower today user_input st = (Ok (out, negb (quits lower user_input)), st') /\
    (quits lower user_input = true -> out = u "Good bye!" /\ st' = st).
Proof.
  unfold step, quits. destruct (parse_input lower user_input) as [command args].
  simpl fst.
  destruct (handlers_return today args st)
    as ((s1 & t1 & E1) & (s2 & t2 & E2) & (s3 & t3 & E3) & (s4 & t4 & E4)
        & (s5 & t5 & E5) & (s6 & t6 & E6) & (s7 & t7 & E7)).
  destruct (decide (command = u "close" \/ command = u "exit")) as [Q | NQ].
  - rewrite bool_decide_eq_true_2 by assumption. do 2 eexists.
    split; [reflexivity | auto].
  - rewrite bool_decide_eq_false_2 by assumption. simpl negb.
    repeat (let D := fresh "D" in destruct (decide _) as [D | D];
            [rewrite ?bind_ret_true, ?E1, ?E2, ?E3, ?E4, ?E5, ?E6, ?E7;
             do 2 eexists; split; [reflexivity | discriminate] |]).
    do 2 eexists. split; [reflexivity | discriminate].
Qed.

Lemma step_book_ok (lower : str -> str) (today : datetime.date)
    (user_input : str) (st : state) :
  book_ok st -> book_ok (snd (step lower today user_input st)).
Proof.
  intros H. unfold step. destruct (parse_input lower user_input) as [command args].
  destruct (query_handlers_read_only today args) as (R1 & R2 & R3 & R4).
  pose proof (add_contact_book_ok args st H) as A1.
  pose proof (change_contact_book_ok args st H) as A2.
  pose proof (add_birthday_book_ok args st H) as A3.
  repeat (let D := fresh "D" in destruct (decide _) as [D | D]; [try exact H |]); try exact H;
    rewrite bind_ret_true.
  - destruct (add_contact args st) as [[s | e] st']; exact A1.
  - destruct (change_contact args st) as [[s | e] st']; exact A2.
  - destruct (show_phone args st) as [[s | e] st'] eqn:E;
      rewrite (R1 _ _ _ E); exact H.
  - destruct (show_all st) as [[s | e] st'] eqn:E; rewrite (R2 _ _ _ E); exact H.
  - destruct (add_birthday args st) as [[s | e] st']; exact A3.
  - destruct (show_birthday args st) as [[s | e] st'] eqn:E;
      rewrite (R3 _ _ _ E); exact H.
  - destruct (birthdays today args st) as [[s | e] st'] eqn:E;
      rewrite (R4 _ _ _ E); exact H.
Qed.

(** X8: only [add], [change] and [add-birthday] can modify the book: a line
    with any other command, with no word, or with an unknown command leaves
    the store and the book exactly as they were. *)
Theorem step_unchanged (lower : str -> str) (today : datetime.date)
    (user_input : str) (st : state) :
  fst (parse_input lower user_input) <> u "add" ->
  fst (parse_input lower user_input) <> u "change" ->
  fst (parse_input lower user_input) <> u "add-birthday" ->
  snd (step lower today user_input st) = st.
Proof.
  unfold step. destruct (parse_input lower user_input) as [command args].
  simpl fst. intros N1 N2 N3.
  destruct (query_handlers_read_only today args) as (R1 & R2 & R3 & R4).
  repeat (let D := fresh "D" in destruct (decide _) as [D | D]; [try reflexivity; try contradiction |]);
    try reflexivity; rewrite bind_ret_true.
  - destruct (show_phone args st) as [[s | e] st'] eqn:E; apply (R1 _ _ _ E).
  - destruct (show_all st) as [[s | e] st'] eqn:E; apply (R2 _ _ _ E).
  - destruct (show_birthday args st) as [[s | e] st'] eqn:E; apply (R3 _ _ _ E).
  - destruct (birthdays today args st) as [[s | e] st'] eqn:E; apply (R4 _ _ _ E).
Qed.

(** The theorem at the line "phone carl" in the book with one phone. *)
Lemma step_unchanged_witness :
  snd (step (fun s => s) (datetime.mkdate 2024 6 10) (u "phone carl") book_ones)
  = book_ones.
Proof.
  apply (step_unchanged (fun s => s) (datetime.mkdate 2024 6 10) (u "phone carl")
           book_ones); vm_compute; discriminate.
Defined.

(** ** The loop *)

(** X9: the loop prints one line for every line it reads and no command
    makes it raise. It ends at the first line whose command is [close] or
    [exit], with "Good bye!" as the last line printed, and reads nothing
    after it; when the input runs out before such a line, the loop ends with
    the EOFError of [input]. *)
Theorem main_loop_end (lower : str -> str) (st : state)
    (pre : list (datetime.date * str)) :
  Forall (fun i => quits lower (snd i) = false) pre ->
  (exists outs st',
     main_loop lower pre st = (outs, (Raise EOFError, st')) /\
     length outs = length pre) /\
  (forall today q post,
     quits lower q = true ->
     exists outs st',
       main_loop lower (pre ++ (today, q) :: post) st
       = (outs ++ [u "Good bye!"], (Ok tt, st')) /\
       length outs = length pre).
Proof.
  intros H. revert st. induction H as [|[t line] pre Hq _ IH]; intros st.
  - split.
    + exists [], st. split; reflexivity.
    + intros today q post Q. exists [], st. simpl.
      destruct (step_returns lower today q st) as (out & st' & E & Hout).
      rewrite E, Q. simpl. destruct (Hout Q) as [-> ->]. split; reflexivity.
  - simpl in Hq. destruct (step_returns lower t line st) as (out & st1 & E & _).
    rewrite Hq in E. simpl in E. destruct (IH st1) as [(outs & st' & E1 & L1) Hb].
    split.
    + exists (out :: outs), st'. simpl. rewrite E, E1. simpl. split; [reflexivity | lia].
    + intros today q post Q. destruct (Hb today q post Q) as (outs2 & st2 & E2 & L2).
      exists (out :: outs2), st2. simpl. rewrite E, E2. simpl.
      split; [reflexivity | lia].
Qed.

(** The theorem at the lines "hello" and "close" typed into the empty book. *)
Lemma main_loop_end_witness :
  exists outs st',
    main_loop (fun s => s)
      ([(datetime.mkdate 2024 6 10, u "hello")]
         ++ (datetime.mkdate 2024 6 10, u "close") :: [])
      empty_state
    = (outs ++ [u "Good bye!"], (Ok tt, st')) /\
    length outs = 1%nat.
Proof.
  apply (proj2 (main_loop_end (fun s => s) empty_state
                  [(datetime.mkdate 2024 6 10, u "hello")]
                  ltac:(repeat constructor))
           (datetime.mkdate 2024 6 10) (u "close") []).
  reflexivity.
Defined.

(** X10: the commands keep the book well-formed. From a book with at most
    one entry per name, whose entries refer to stored records carrying the
    entry's name, whose phones all pass validation and whose birthdays are
    dates of the calendar, the loop reaches only such books, whatever lines
    it reads. The empty book is one. *)
Theorem main_loop_book_ok (lower : str -> str)
    (inputs : list (datetime.date * str)) (st : state) :
  book_ok empty_state /\
  (book_ok st -> book_ok (snd (snd (main_loop lower inputs st)))).
Proof.
  split; [exact book_ok_empty |].
  revert st. induction inputs as [|[today line] inputs IH]; intros st H.
  - exact H.
  - simpl. pose proof (step_book_ok lower today line st H) as H1.
    destruct (step lower today line st) as [[[out []] | e] st1]; simpl in *.
    + specialize (IH st1 H1). destruct (main_loop lower inputs st1) as [outs r].
      exact IH.
    + exact H1.
    + exact H1.
Qed.

(** The theorem at three lines typed into the empty book. *)
Lemma main_loop_book_ok_witness :
  book_ok (snd (snd (main_loop (fun s => s)
                       [(datetime.mkdate 2024 6 10, u "add bob 1234567890");
                        (datetime.mkdate 2024 6 10, u "add-birthday bob 29.02.2000");
                        (datetime.mkdate 2024 6 10, u "add eve 12")]
                       empty_state))).
Proof.
  apply (proj2 (main_loop_book_ok (fun s => s)
                  [(datetime.mkdate 2024 6 10, u "add bob 1234567890");
                   (datetime.mkdate 2024 6 10, u "add-birthday bob 29.02.2000");
                   (datetime.mkdate 2024 6 10, u "add eve 12")]
                  empty_state)).
  exact (proj1 (main_loop_book_ok (fun s => s) [] empty_state)).
Defined.

(** ** Commands in sequence *)

Lemma validate_not_empty (phone : str) : Phone._validate phone = true -> phone <> [].
Proof. intros H ->. discriminate H. Qed.

Lemma show_phone_run (st : state) (n : str) (l : loc) (rest : list str) :
  dict.get n (data st) = Some l ->
  show_phone (n :: rest) st = (Ok (Str.join (u ", ") (phones (heap st !!! l))), st).
Proof.
  intros G. unfold show_phone, input_error, bind, AddressBook.find, get_data, ret, deref.
  simpl. rewrite G. reflexivity.
Qed.

Lemma get_after_create (st : state) (n : str) :
  dict.get n (data st) = None ->
  dict.get n (data st ++ [(n, length (heap st))]) = Some (length (heap st)).
Proof.
  intros G. rewrite <- (dict_set_absent (data st) n (length (heap st)) G).
  apply dict_get_set_eq.
Qed.

(** X11: adding a valid phone and asking for the phones. In a well-formed
    book, [add name phone] with a phone that passes validation answers
    "Contact added." for a new name and "Contact updated." for a known one,
    puts the phone after the phones the name already had, and [phone name]
    then prints those phones, separated by ", ". *)
Theorem add_then_phone (st : state) (n phone : str) (rest rest' : list str) :
  book_ok st -> Phone._validate phone = true ->
  exists st',
    add_contact (n :: phone :: rest) st
    = (Ok (if dict.contains n (data st)
           then u "Contact updated." else u "Contact added."), st') /\
    phones_of st' n = phones_of st n ++ [phone] /\
    show_phone (n :: rest') st'
    = (Ok (Str.join (u ", ") (phones_of st n ++ [phone])), st').
Proof.
  intros (_ & Href & _) Hv. pose proof (validate_not_empty _ Hv) as Hne.
  rewrite add_contact_run. cbv zeta. unfold dict.contains, phones_of.
  destruct phone as [|c phone]; [congruence |]. rewrite Hv.
  destruct (dict.get n (data st)) as [l |] eqn:G.
  - destruct (Href n l G) as (r & Hl & _).
    eexists. split; [reflexivity |]. cbn [heap data].
    assert (E : phones (alter (fun r0 => mkRecord (name r0) (phones r0 ++ [c :: phone])
                                           (birthday r0)) l (heap st) !!! l)
                = phones (heap st !!! l) ++ [c :: phone]).
    { rewrite list_lookup_total_alter_eq by (eapply lookup_lt_Some, Hl). reflexivity. }
    rewrite G. split; [exact E |].
    rewrite (show_phone_run _ n l) by exact G. cbn [heap data].
    f_equal. f_equal. f_equal. exact E.
  - eexists. split; [reflexivity |]. cbn [heap data].
    assert (E : phones (alter (fun r0 => mkRecord (name r0) (phones r0 ++ [c :: phone])
                                           (birthday r0)) (length (heap st))
                          (heap st ++ [mkRecord n [] None]) !!! length (heap st))
                = [c :: phone]).
    { rewrite list_lookup_total_alter_eq by (rewrite length_app; simpl; lia).
      rewrite list_lookup_total_middle by reflexivity. reflexivity. }
    rewrite (get_after_create st n G). split; [exact E |].
    rewrite (show_phone_run _ n (length (heap st))) by (apply get_after_create, G).
    cbn [heap data]. f_equal. f_equal. f_equal. exact E.
Qed.

(** The theorem at [add alice 1234567890] on the empty book, then
    [phone alice]. *)
Lemma add_then_phone_witness :
  exists st',
    add_contact [u "alice"; u "1234567890"] empty_state = (Ok (u "Contact added."), st') /\
    phones_of st' (u "alice") = [u "1234567890"] /\
    show_phone [u "alice"] st' = (Ok (u "1234567890"), st').
Proof.
  apply (add_then_phone empty_state (u "alice") (u "1234567890") [] []).
  - exact book_ok_empty.
  - reflexivity.
Defined.

Lemma show_birthday_run (st : state) (n s : str) (l : loc) (b : datetime.date)
    (rest : list str) :
  dict.get n (data st) = Some l -> birthday (heap st !!! l) = Some b ->
  datetime.strftime_dmY b = s ->
  show_birthday (n :: rest) st = (Ok s, st).
Proof.
  intros G Hb <-.
  unfold show_birthday, input_error, bind, AddressBook.find, get_data, ret, deref.
  simpl. rewrite G. simpl. rewrite Hb. reflexivity.
Qed.

(** X12: setting a birthday and asking for it. In a well-formed book,
    [add-birthday name s] with a string DD.MM.YYYY that denotes a date of the
    calendar in the year 1000 or later answers "Birthday added for name",
    for a new name as for a known one, leaves the phones of the name as they
    were, and [show-birthday name] then prints [s] again. *)
Theorem add_birthday_then_show (st : state) (n s : str) (dt : datetime.date)
    (rest : list str) :
  book_ok st -> DDMMYYYY s dt -> datetime.valid dt -> 1000 <= datetime.year dt ->
  exists st',
    add_birthday [n; s] st = (Ok (u "Birthday added for " ++ n), st') /\
    phones_of st' n = phones_of st n /\
    show_birthday (n :: rest) st' = (Ok s, st').
Proof.
  intros (_ & Href & _) Hs V Hy.
  rewrite add_birthday_run. cbv zeta. rewrite (strptime_DDMMYYYY s dt Hs V).
  pose proof (strftime_DDMMYYYY s dt Hs V Hy) as Hf.
  unfold phones_of. destruct (dict.get n (data st)) as [l |] eqn:G.
  - destruct (Href n l G) as (r & Hl & _).
    eexists. split; [reflexivity |]. cbn [heap data]. rewrite G.
    assert (E : alter (fun r0 => mkRecord (name r0) (phones r0) (Some dt)) l (heap st) !!! l
                = mkRecord (name (heap st !!! l)) (phones (heap st !!! l)) (Some dt)).
    { rewrite list_lookup_total_alter_eq by (eapply lookup_lt_Some, Hl). reflexivity. }
    split.
    + transitivity (phones (mkRecord (name (heap st !!! l)) (phones (heap st !!! l))
                              (Some dt))); [f_equal; exact E | reflexivity].
    + apply (show_birthday_run _ n s l dt); [exact G | | exact Hf].
      cbn [heap data].
      transitivity (birthday (mkRecord (name (heap st !!! l)) (phones (heap st !!! l))
                                (Some dt))); [f_equal; exact E | reflexivity].
  - eexists. split; [reflexivity |]. cbn [heap data].
    rewrite (get_after_create st n G).
    assert (E : alter (fun r0 => mkRecord (name r0) (phones r0) (Some dt))
                  (length (heap st)) (heap st ++ [mkRecord n [] None])
                !!! length (heap st)
                = mkRecord n [] (Some dt)).
    { rewrite list_lookup_total_alter_eq by (rewrite length_app; simpl; lia).
      rewrite list_lookup_total_middle by reflexivity. reflexivity. }
    split.
    + transitivity (phones (mkRecord n [] (Some dt))); [f_equal; exact E | reflexivity].
    + apply (show_birthday_run _ n s (length (heap st)) dt); [| | exact Hf].
      * cbn [heap data]. apply get_after_create, G.
      * cbn [heap data].
        transitivity (birthday (mkRecord n [] (Some dt))); [f_equal; exact E | reflexivity].
Qed.

(** The theorem at [add-birthday bob 29.02.2000] on the empty book, then
    [show-birthday bob]. *)
Lemma add_birthday_then_show_witness :
  exists st',
    add_birthday [u "bob"; u "29.02.2000"] empty_state
    = (Ok (u "Birthday added for " ++ u "bob"), st') /\
    phones_of st' (u "bob") = phones_of empty_state (u "bob") /\
    show_birthday [u "bob"] st' = (Ok (u "29.02.2000"), st').
Proof.
  apply (add_birthday_then_show empty_state (u "bob") (u "29.02.2000")
           (datetime.mkdate 2000 2 29) []).
  - exact book_ok_empty.
  - apply (DDMMYYYY_intro 50 57 48 50 50 48 48 48).
    repeat constructor; vm_compute; discriminate.
  - repeat split; vm_compute; discriminate.
  - vm_compute. discriminate.
Defined.

(** X13: [change] is all or nothing. Whatever its arguments, it either
    answers "Phone updated." or leaves the store and the book exactly as they
    were; and when it answers "Phone updated." for a name of a well-formed
    book, the first phone equal to the old one has been replaced by the new
    one, which passes validation, the other phones staying in place. *)
Theorem change_contact_all_or_nothing (args : list str) (st : state) :
  (fst (change_contact args st) <> Ok (u "Phone updated.") ->
   snd (change_contact args st) = st) /\
  (book_ok st ->
   fst (change_contact args st) = Ok (u "Phone updated.") ->
   exists n old_phone new_phone rest pre post,
     args = n :: old_phone :: new_phone :: rest /\
     phones_of st n = pre ++ old_phone :: post /\ (old_phone ∉ pre) /\
     Phone._validate new_phone = true /\
     phones_of (snd (change_contact args st)) n = pre ++ new_phone :: post /\
     data (snd (change_contact args st)) = data st).
Proof.
  destruct args as [|n [|old_phone [|new_phone rest]]].
  1-3: split; [reflexivity | intros _ H; vm_compute in H; discriminate H].
  rewrite change_contact_run. unfold phones_of.
  destruct (dict.get n (data st)) as [l |] eqn:G.
  2: { split; [reflexivity | intros _ H; vm_compute in H; discriminate H]. }
  destruct (decide (old_phone ∈ phones (heap st !!! l))) as [Hin | Hout].
  2: { split; [reflexivity | intros _ H; vm_compute in H; discriminate H]. }
  destruct (Phone._validate new_phone) eqn:Hv.
  2: { split; [reflexivity | intros _ H; vm_compute in H; discriminate H]. }
  split; [intros H; contradiction H; reflexivity |].
  intros (_ & Href & _) _. destruct (Href n l G) as (r & Hl & _).
  pose proof (list_lookup_total_correct _ _ _ Hl) as Ht. rewrite Ht in *.
  apply list_elem_of_split_l in Hin. destruct Hin as (pre & post & Hp & Hpre).
  exists n, old_phone, new_phone, rest, pre, post.
  cbn [snd]. rewrite (edit_phone_replaces l old_phone new_phone st r pre post Hl Hp Hpre Hv).
  cbn [snd heap data]. rewrite G.
  repeat split; try assumption.
  - rewrite Ht. exact Hp.
  - rewrite list_lookup_total_insert_eq by (eapply lookup_lt_Some, Hl). reflexivity.
Qed.

(** The theorem at [change carl 1111111111 2222222222] in the book with that
    phone. *)
Lemma change_contact_all_or_nothing_witness :
  exists n old_phone new_phone rest pre post,
    [u "carl"; u "1111111111"; u "2222222222"] = n :: old_phone :: new_phone :: rest /\
    phones_of book_ones n = pre ++ old_phone :: post /\ (old_phone ∉ pre) /\
    Phone._validate new_phone = true /\
    phones_of (snd (change_contact [u "carl"; u "1111111111"; u "2222222222"] book_ones)) n
    = pre ++ new_phone :: post /\
    data (snd (change_contact [u "carl"; u "1111111111"; u "2222222222"] book_ones))
    = data book_ones.
Proof.
  apply (proj2 (change_contact_all_or_nothing
                  [u "carl"; u "1111111111"; u "2222222222"] book_ones)).
  - split; [| split].
    + intros k. unfold entries_under, book_ones. simpl.
      rewrite filter_cons, filter_nil. destruct (decide _); simpl; lia.
    + intros k l. unfold book_ones. simpl.
      destruct (decide _) as [<- |]; [| discriminate].
      intros [= <-]. eexists. split; reflexivity.
    + constructor; [| constructor].
      split; [repeat constructor | intros ? HH; discriminate HH].
  - reflexivity.
Defined.

(** X14: a refused birthday. When the date does not parse, [add-birthday]
    answers with the message of Birthday; for a name of the book nothing
    changes, but for a new name the record created for it stays in the book,
    without phone or birthday. *)
Theorem add_birthday_refused (st : state) (n bday : str) :
  datetime.strptime_dmY bday = None ->
  exists st',
    add_birthday [n; bday] st = (Ok (u "Error: Invalid date format. Use DD.MM.YYYY"), st') /\
    (dict.contains n (data st) = true -> st' = st) /\
    (dict.contains n (data st) = false ->
     heap st' = heap st ++ [mkRecord n [] None] /\
     data st' = data st ++ [(n, length (heap st))] /\
     contact_of st' n = Some (mkRecord n [] None)).
Proof.
  intros P. rewrite add_birthday_run. cbv zeta. rewrite P.
  unfold dict.contains, contact_of.
  destruct (dict.get n (data st)) as [l |] eqn:G.
  - eexists. split; [reflexivity |]. split; [reflexivity | discriminate].
  - eexists. split; [reflexivity |]. split; [discriminate |]. intros _.
    cbn [heap data]. rewrite (get_after_create st n G).
    repeat split. apply list_lookup_middle. reflexivity.
Qed.

(** The theorem at [add-birthday zed 2000-02-29] on the empty book. *)
Lemma add_birthday_refused_witness :
  exists st',
    add_birthday [u "zed"; u "2000-02-29"] empty_state
    = (Ok (u "Error: Invalid date format. Use DD.MM.YYYY"), st') /\
    (dict.contains (u "zed") (data empty_state) = true -> st' = empty_state) /\
    (dict.contains (u "zed") (data empty_state) = false ->
     heap st' = heap empty_state ++ [mkRecord (u "zed") [] None] /\
     data st' = data empty_state ++ [(u "zed", length (heap empty_state))] /\
     contact_of st' (u "zed") = Some (mkRecord (u "zed") [] None)).
Proof.
  apply (add_birthday_refused empty_state (u "zed") (u "2000-02-29")).
  reflexivity.
Defined.

(** ** One contact at a time *)

Lemma contact_of_create (st : state) (n m : str) :
  book_ok st -> m <> n ->
  contact_of (mkState (heap st ++ [mkRecord n [] None])
                      (data st ++ [(n, length (heap st))])) m
  = contact_of st m.
Proof.
  intros (_ & Href & _) Hne. unfold contact_of. cbn [heap data].
  assert (G : dict.get m (data st ++ [(n, length (heap st))]) = dict.get m (data st)).
  { clear Href. induction (data st) as [|[k v] d IH]; simpl.
    - rewrite decide_False by congruence. reflexivity.
    - destruct (decide (k = m)); [reflexivity | exact IH]. }
  rewrite G. destruct (dict.get m (data st)) as [lm |] eqn:Gm; [| reflexivity].
  destruct (Href m lm Gm) as (r & Hl & _). rewrite Hl.
  apply lookup_app_l_Some, Hl.
Qed.

Lemma contact_of_alter (st : state) (n m : str) (l : loc) (f : record -> record) :
  book_ok st -> dict.get n (data st) = Some l -> m <> n ->
  contact_of (mkState (alter f l (heap st)) (data st)) m = contact_of st m.
Proof.
  intros (_ & Href & _) G Hne. unfold contact_of. cbn [heap data].
  destruct (dict.get m (data st)) as [lm |] eqn:Gm; [| reflexivity].
  apply list_lookup_alter_ne. intros ->.
  destruct (Href m lm Gm) as (r1 & H1 & N1).
  destruct (Href n lm G) as (r2 & H2 & N2).
  rewrite H1 in H2. injection H2 as <-. congruence.
Qed.

Lemma edit_phone_state (st : state) (l : loc) (old_phone new_phone : str) :
  snd (Rec.edit_phone l old_phone new_phone st) = st \/
  exists f, snd (Rec.edit_phone l old_phone new_phone st)
            = mkState (alter f l (heap st)) (data st).
Proof.
  destruct (decide (old_phone ∈ phones (heap st !!! l))) as [Hin | Hout].
  - destruct (Phone._validate new_phone) eqn:Hv.
    + right. unfold Rec.edit_phone, bind, deref.
      apply list_elem_of_split_l in Hin. destruct Hin as (pre & post & -> & Hpre).
      rewrite edit_phone_loop_found by assumption.
      unfold Phone.__init__. rewrite Hv. simpl. eexists. reflexivity.
    + left. rewrite edit_phone_invalid by assumption. reflexivity.
  - left. rewrite edit_phone_not_found by assumption. reflexivity.
Qed.

(** X15: a command about one contact never touches another. In a well-formed
    book, [add], [change] and [add-birthday] for the name [n] leave every
    other name with the record it had: same phones, same birthday. *)
Theorem commands_touch_one_contact (st : state) (n m : str) (args : list str) :
  book_ok st -> m <> n ->
  contact_of (snd (add_contact (n :: args) st)) m = contact_of st m /\
  contact_of (snd (change_contact (n :: args) st)) m = contact_of st m /\
  contact_of (snd (add_birthday (n :: args) st)) m = contact_of st m.
Proof.
  intros H Hne.
  assert (C : forall f,
             contact_of
               (mkState
                  (alter f match dict.get n (data st) with
                           | Some l => l
                           | None => length (heap st)
                           end
                     (heap match dict.get n (data st) with
                           | Some _ => st
                           | None => mkState (heap st ++ [mkRecord n [] None])
                                             (data st ++ [(n, length (heap st))])
                           end))
                  (data match dict.get n (data st) with
                        | Some _ => st
                        | None => mkState (heap st ++ [mkRecord n [] None])
                                          (data st ++ [(n, length (heap st))])
                        end)) m
             = contact_of st m).
  { intros f. destruct (dict.get n (data st)) as [l |] eqn:G.
    - apply (contact_of_alter st n m l f H G Hne).
    - rewrite (contact_of_alter _ n m (length (heap st)) f).
      + apply contact_of_create; assumption.
      + apply book_ok_create; assumption.
      + apply get_after_create, G.
      + exact Hne. }
  assert (C0 : contact_of match dict.get n (data st) with
                          | Some _ => st
                          | None => mkState (heap st ++ [mkRecord n [] None])
                                            (data st ++ [(n, length (heap st))])
                          end m
               = contact_of st m).
  { destruct (dict.get n (data st)); [reflexivity | apply contact_of_create; assumption]. }
  split; [| split].
  - destruct args as [|phone rest]; [reflexivity |].
    rewrite add_contact_run. cbv zeta.
    destruct phone as [|c phone]; [exact C0 |].
    destruct (Phone._validate (c :: phone)); [apply C | exact C0].
  - destruct args as [|old_phone [|new_phone rest]]; [reflexivity | reflexivity |].
    rewrite change_contact_run.
    destruct (dict.get n (data st)) as [l |] eqn:G; [| reflexivity].
    destruct (decide _); [| reflexivity].
    destruct (Phone._validate new_phone); [| reflexivity].
    cbn [snd]. destruct (edit_phone_state st l old_phone new_phone) as [-> | [f ->]];
      [reflexivity |].
    apply (contact_of_alter st n m l f H G Hne).
  - destruct args as [|bday [|x rest]]; [reflexivity | | reflexivity].
    rewrite add_birthday_run. cbv zeta.
    destruct (datetime.strptime_dmY bday); [apply C | exact C0].
Qed.

(** The theorem at [add ann 1234567890] in the book of June, for "ben". *)
Lemma commands_touch_one_contact_witness :
  contact_of (snd (add_contact [u "ann"; u "1234567890"] book_june)) (u "ben")
  = contact_of book_june (u "ben").
Proof.
  apply (proj1 (commands_touch_one_contact book_june (u "ann") (u "ben")
                  [u "1234567890"]
                  ltac:(split; [| split];
                        [ intros k; unfold entries_under, book_june; simpl;
                          rewrite !filter_cons, filter_nil;
                          destruct (decide _) as [E1 |]; destruct (decide _) as [E2 |];
                          simpl; try lia;
                          exfalso; rewrite <- E2 in E1; vm_compute in E1; discriminate E1
                        | intros k l; unfold book_june; simpl;
                          destruct (decide _) as [<- |];
                          [ intros [= <-]; eexists; split; reflexivity
                          | destruct (decide _) as [<- |]; [| discriminate];
                            intros [= <-]; eexists; split; reflexivity ]
                        | constructor; [| constructor; [| constructor]];
                          (split; [constructor | intros ? HH; injection HH as <-;
                                                 repeat split; vm_compute; discriminate]) ])
                  ltac:(intros HH; vm_compute in HH; discriminate HH))).
Defined.
